(** * Cache-aside users route: PostgreSQL behind a Redis snapshot

    A shallow embedding of [app/users/route.ts]: the two handlers [GET] and
    [POST], the helpers [readUsers] and [writeUsers], and the constants
    [USERS_CACHE_KEY] and [USERS_CACHE_TTL].

    The handlers are asynchronous functions that talk to two services and
    use exceptions for control flow.  They are embedded in a state-and-
    exception monad [M] over a [World] that holds the Redis keyspace, the
    committed [users] table, the sessions of the pool clients that are
    checked out, a record of every call issued, and the schedule of the
    calls that the services are going to refuse.

    The set-up route [app/route.ts], which creates the table, takes no part
    in the cache-aside protocol; it is embedded on a world of its own in
    [Module Setup]. *)

From Stdlib Require Import ZArith Ascii String.
From stdpp Require Import base option list strings pretty gmap fin_maps.

Set Warnings "-register-all".

Local Open Scope string_scope.
Local Open Scope list_scope.
Local Open Scope Z_scope.

(** ** Data model *)

(** [interface User { id: string; name: string; email: string; age: number }].
    [age] is an [INTEGER] column, hence [Z]. *)
Record User := mkUser {
  id : string;
  name : string;
  email : string;
  age : Z;
}.

(** The values that cross the JSON boundary: what [JSON.parse] produces and
    what [NextResponse.json] and [JSON.stringify] consume.  Numbers are
    integers, as every number of this route (an age, a count) is. *)
Inductive JSON :=
| JNull
| JBool (b : bool)
| JNum (z : Z)
| JStr (s : string)
| JArr (items : list JSON)
| JObj (fields : list (string * JSON)).

(** A [User] object and a [User[]] array as JSON values, with the properties
    in the order of the [SELECT] list. *)
Definition user_json (u : User) : JSON :=
  JObj [("id", JStr (id u)); ("name", JStr (name u));
        ("email", JStr (email u)); ("age", JNum (age u))].

Definition users_json (us : list User) : JSON := JArr (user_json <$> us).

(** The runtime's [JSON.parse] and [JSON.stringify].  They are built-ins of
    the platform, not code of the route, so the route is verified against
    their interface: [JSON.parse] throws on some texts ([None]), the empty
    text among them. *)
Class JSONRuntime := {
  JSON_parse : string → option JSON;
  JSON_stringify : JSON → string;
  JSON_parse_empty : JSON_parse "" = None;
}.

(** [NextResponse.json(body, { status })]; the status defaults to 200. *)
Record Response := mkResponse {
  status : nat;
  body : JSON;
}.

Definition NextResponse_json (b : JSON) (st : nat) : Response :=
  {| status := st; body := b |}.

(** ** The services *)

(** A row of [users] without its primary key. *)
Record Row := mkRow {
  row_name : string;
  row_email : string;
  row_age : Z;
}.

Definition row_of (u : User) : Row :=
  {| row_name := name u; row_email := email u; row_age := age u |}.

Definition user_of (i : string) (r : Row) : User :=
  {| id := i; name := row_name r; email := row_email r; age := row_age r |}.

(** The statements the route sends over a checked-out client. [Upsert u] is
    [insertQuery] with the parameters [[u.id, u.name, u.email, u.age]]. *)
Inductive Statement :=
| Begin
| Upsert (u : User)
| Commit
| Rollback.

(** The operations of the two services as the route calls them.
    [PoolQuerySelect] is [pool.query] with
    [SELECT id, name, email, age FROM users]. *)
Inductive Op :=
| RedisGet (key : string)
| RedisSetEx (key value : string) (seconds : nat)
| RedisDel (key : string)
| PoolQuerySelect
| PoolConnect
| ClientQuery (client : nat) (stmt : Statement)
| ClientRelease (client : nat).

(** What a handler can catch. *)
Inductive Error :=
| SyntaxError            (* JSON.parse or req.json() on a text that is not JSON *)
| ServiceError (o : Op). (* a rejected promise of Redis or PostgreSQL *)

(** What the outside can observe of a run, oldest first. *)
Inductive Event :=
| Called (o : Op)
| ConsoleError (msg : string) (e : Error).

(** A Redis string value with its remaining time to live. *)
Record Entry := mkEntry {
  value : string;
  ttl : option nat;
}.

(** The transaction status of a PostgreSQL session.  [Active t] carries the
    table as the open transaction sees it; [Aborted] is a transaction block
    after a failed statement. *)
Inductive TxState :=
| Idle
| Active (work : gmap string Row)
| Aborted.

Record World := mkWorld {
  redis : gmap string Entry;        (* the Redis keyspace *)
  table : gmap string Row;          (* committed rows of users, by id *)
  sessions : gmap nat TxState;      (* pool clients currently checked out *)
  faults : list bool;               (* true: the next call is refused *)
  trace : list Event;               (* everything issued so far *)
}.

Definition with_redis (r : gmap string Entry) (w : World) : World :=
  {| redis := r; table := table w; sessions := sessions w;
     faults := faults w; trace := trace w |}.
Definition with_table (t : gmap string Row) (w : World) : World :=
  {| redis := redis w; table := t; sessions := sessions w;
     faults := faults w; trace := trace w |}.
Definition with_sessions (s : gmap nat TxState) (w : World) : World :=
  {| redis := redis w; table := table w; sessions := s;
     faults := faults w; trace := trace w |}.
Definition with_faults (f : list bool) (w : World) : World :=
  {| redis := redis w; table := table w; sessions := sessions w;
     faults := f; trace := trace w |}.
Definition emit (e : Event) (w : World) : World :=
  {| redis := redis w; table := table w; sessions := sessions w;
     faults := faults w; trace := trace w ++ [e] |}.

(** ** The monad of the handlers *)

Inductive Outcome (A : Type) :=
| Returned (a : A)
| Thrown (e : Error).
Arguments Returned {A} a.
Arguments Thrown {A} e.

Definition M (A : Type) : Type := World → Outcome A * World.

Definition ret {A} (a : A) : M A := λ w, (Returned a, w).

Definition throw {A} (e : Error) : M A := λ w, (Thrown e, w).

Definition bind {A B} (m : M A) (k : A → M B) : M B :=
  λ w, match m w with
       | (Returned a, w') => k a w'
       | (Thrown e, w') => (Thrown e, w')
       end.

(** [try { body } catch (err) { handler }] *)
Definition try_catch {A} (body : M A) (handler : Error → M A) : M A :=
  λ w, match body w with
       | (Returned a, w') => (Returned a, w')
       | (Thrown e, w') => handler e w'
       end.

(** [try { body } finally { cleanup }]: the cleanup runs on both exits, and
    an exception of its own replaces the completion of the body. *)
Definition try_finally {A} (body : M A) (cleanup : M unit) : M A :=
  λ w, match body w with
       | (r, w') =>
           match cleanup w' with
           | (Returned _, w'') => (r, w'')
           | (Thrown e, w'') => (Thrown e, w'')
           end
       end.

Declare Scope route_scope.
Delimit Scope route_scope with route.
Notation "x <- m ;; k" := (bind m (λ x, k))
  (at level 100, m at next level, k at level 200, right associativity,
   format "'[v' x  <-  m  ;;  '/' k ']'") : route_scope.
Notation "m ;;; k" := (bind m (λ _, k))
  (at level 100, k at level 200, right associativity,
   format "'[v' m  ;;;  '/' k ']'") : route_scope.
Local Open Scope route_scope.

(** [for (const x of xs) { await f(x) }] *)
Fixpoint for_of {A} (xs : list A) (f : A → M unit) : M unit :=
  match xs with
  | [] => ret tt
  | x :: xs' => f x ;;; for_of xs' f
  end.

(** ** Calls to the services *)

(** A call leaves for its service: it is recorded, and the schedule says
    whether the service is going to refuse it.  An exhausted schedule
    refuses nothing. *)
Definition issue (o : Op) (w : World) : bool * World :=
  (default false (head (faults w)),
   with_faults (tail (faults w)) (emit (Called o) w)).

(** An awaited call to a service: the promise rejects when the service
    refuses the call ([refused] says what that does to the service), and
    otherwise the service serves it. *)
Definition call {A} (o : Op) (refused : World → World)
    (served : World → Outcome A * World) : M A :=
  λ w,
    let '(refuse, w') := issue o w in
    if refuse then (Thrown (ServiceError o), refused w') else served w'.

(** *** Redis *)

(** [redis.get(key)]: the string, or [null]. *)
Definition redis_get (key : string) : M (option string) :=
  call (RedisGet key) (λ w, w)
    (λ w, (Returned (value <$> redis w !! key), w)).

(** [redis.set(key, value, "EX", seconds)] replaces value and expiry. *)
Definition redis_set_ex (key val : string) (seconds : nat) : M unit :=
  call (RedisSetEx key val seconds) (λ w, w)
    (λ w, (Returned tt,
           with_redis (<[key := {| value := val; ttl := Some seconds |}]> (redis w)) w)).

(** [redis.del(key)] *)
Definition redis_del (key : string) : M unit :=
  call (RedisDel key) (λ w, w)
    (λ w, (Returned tt, with_redis (delete key (redis w)) w)).

(** The passing of [s] seconds: Redis drops what has expired. *)
Definition aged (s : nat) (e : Entry) : option Entry :=
  match ttl e with
  | None => Some e
  | Some t =>
      if decide (t ≤ s)%nat then None
      else Some {| value := value e; ttl := Some (t - s)%nat |}
  end.

Definition elapse (s : nat) (w : World) : World :=
  with_redis (omap (aged s) (redis w)) w.

(** *** PostgreSQL *)

(** [INSERT INTO users (id, name, email, age) VALUES ($1, $2, $3, $4)
     ON CONFLICT (id) DO UPDATE SET name = EXCLUDED.name,
     email = EXCLUDED.email, age = EXCLUDED.age] on a table keyed by [id]. *)
Definition upsert (u : User) (t : gmap string Row) : gmap string Row :=
  <[id u := row_of u]> t.

(** [SELECT id, name, email, age FROM users].  The query has no
    [ORDER BY]; the rows come in the order of the map. *)
Definition select_users (t : gmap string Row) : list User :=
  uncurry user_of <$> map_to_list t.

(** [pool.query(select)] runs on a client of the pool's own, outside any
    transaction of the handler: it sees the committed rows. *)
Definition pool_query_select : M (list User) :=
  call PoolQuerySelect (λ w, w)
    (λ w, (Returned (select_users (table w)), w)).

(** [pool.connect()] checks a client out; its session is idle. *)
Definition pool_connect : M nat :=
  call PoolConnect (λ w, w)
    (λ w, let c := fresh (dom (sessions w)) in
          (Returned c, with_sessions (<[c := Idle]> (sessions w)) w)).

(** What the server does with a statement it accepts to look at.  Outside a
    transaction block a statement commits by itself; inside an aborted block
    everything but the end of the block is rejected; nothing of an open
    block reaches [table] before its [COMMIT]. *)
Definition execute (c : nat) (stmt : Statement) (w : World)
    : Outcome unit * World :=
  match sessions w !! c with
  | None => (Thrown (ServiceError (ClientQuery c stmt)), w)
  | Some st =>
      match stmt, st with
      | Begin, Idle =>
          (Returned tt, with_sessions (<[c := Active (table w)]> (sessions w)) w)
      | Begin, Active _ => (Returned tt, w)
      | Upsert u, Idle => (Returned tt, with_table (upsert u (table w)) w)
      | Upsert u, Active t =>
          (Returned tt, with_sessions (<[c := Active (upsert u t)]> (sessions w)) w)
      | Commit, Idle => (Returned tt, w)
      | Commit, Active t =>
          (Returned tt, with_sessions (<[c := Idle]> (sessions w)) (with_table t w))
      | Commit, Aborted =>
          (Returned tt, with_sessions (<[c := Idle]> (sessions w)) w)
      | Rollback, _ =>
          (Returned tt, with_sessions (<[c := Idle]> (sessions w)) w)
      | _, Aborted => (Thrown (ServiceError (ClientQuery c stmt)), w)
      end
  end.

(** A statement that fails inside a transaction block aborts the block. *)
Definition fail_statement (c : nat) (w : World) : World :=
  match sessions w !! c with
  | Some (Active _) => with_sessions (<[c := Aborted]> (sessions w)) w
  | _ => w
  end.

(** [client.query(stmt)] *)
Definition client_query (c : nat) (stmt : Statement) : M unit :=
  call (ClientQuery c stmt) (fail_statement c) (execute c stmt).

(** [client.release()] is synchronous: the client goes back to the pool and
    the handler's session with it. *)
Definition client_release (c : nat) : M unit :=
  λ w, (Returned tt,
        with_sessions (delete c (sessions w)) (emit (Called (ClientRelease c)) w)).

(** [console.error(msg, err)] *)
Definition console_error (msg : string) (e : Error) : M unit :=
  λ w, (Returned tt, emit (ConsoleError msg e) w).

(** ** The route *)

Definition USERS_CACHE_KEY : string := "users".

Definition USERS_CACHE_TTL : nat := 60.

Definition readUsers : M (list User) :=
  rows <- pool_query_select ;;
  ret rows.

Definition writeUsers (users : list User) : M unit :=
  client <- pool_connect ;;
  try_finally
    (try_catch
       (client_query client Begin ;;;
        for_of users (λ user, client_query client (Upsert user)) ;;;
        client_query client Commit)
       (λ err,
          client_query client Rollback ;;;
          throw err))
    (client_release client).

Definition fetch_failed : Response :=
  NextResponse_json (JObj [("error", JStr "Failed to fetch users")]) 500.

Definition write_failed : Response :=
  NextResponse_json (JObj [("error", JStr "Failed to write users")]) 500.

Definition write_succeeded (count : nat) : Response :=
  NextResponse_json
    (JObj [("success", JBool true); ("count", JNum (Z.of_nat count))]) 200.

Section Read.
Context `{JSONRuntime}.

Definition JSON_parse_or_throw (text : string) : M JSON :=
  match JSON_parse text with
  | Some v => ret v
  | None => throw SyntaxError
  end.

(** [if (cached)] holds for a string that is not empty; [null] and the
    empty string take the other branch. *)
Definition GET : M Response :=
  try_catch
    (cached <- redis_get USERS_CACHE_KEY ;;
     match cached with
     | Some (String _ _ as text) =>
         parsed <- JSON_parse_or_throw text ;;
         ret (NextResponse_json parsed 200)
     | _ =>
         users <- readUsers ;;
         redis_set_ex USERS_CACHE_KEY (JSON_stringify (users_json users))
           USERS_CACHE_TTL ;;;
         ret (NextResponse_json (users_json users) 200)
     end)
    (λ err,
       console_error "GET /users failed:" err ;;;
       ret fetch_failed).
End Read.

(** The body of a request at the type the handler gives it, [User | User[]];
    [None] is a body on which [req.json()] rejects. *)
Inductive Body :=
| One (u : User)
| Many (us : list User).

Record NextRequest := mkRequest {
  payload : option Body;
}.

Definition req_json (req : NextRequest) : M Body :=
  match payload req with
  | Some b => ret b
  | None => throw SyntaxError
  end.

(** [Array.isArray(body) ? body : [body]] *)
Definition normalize (b : Body) : list User :=
  match b with
  | Many us => us
  | One u => [u]
  end.

Definition POST (req : NextRequest) : M Response :=
  try_catch
    (body <- req_json req ;;
     let users := normalize body in
     writeUsers users ;;;
     redis_del USERS_CACHE_KEY ;;;
     ret (write_succeeded (length users)))
    (λ err,
       console_error "POST /users failed:" err ;;;
       ret write_failed).

(** ** A JSON runtime to run the route on

    An instance of [JSONRuntime] on the integer fragment of JSON:
    [stringify] prints as [JSON.stringify] does (no white space, properties
    in order, the short escapes and [\u00xx] for the other control
    characters); [parse] reads texts of that fragment and throws on the
    rest. *)
Module Json.

Definition dquote : ascii := "034"%char.
Definition backslash : ascii := "\"%char.

Definition quote : string := String dquote EmptyString.

Definition hex_digit (n : N) : ascii :=
  ascii_of_N (if (n <? 10)%N then 48 + n else 87 + n).

Definition escape_char (c : ascii) : string :=
  let n := N_of_ascii c in
  if Ascii.eqb c dquote then String backslash quote
  else if Ascii.eqb c backslash then String backslash (String backslash EmptyString)
  else if (n =? 8)%N then "\b"
  else if (n =? 9)%N then "\t"
  else if (n =? 10)%N then "\n"
  else if (n =? 12)%N then "\f"
  else if (n =? 13)%N then "\r"
  else if (n <? 32)%N then
    "\u00" +:+ String (hex_digit (n / 16)) (String (hex_digit (n mod 16)) EmptyString)
  else String c EmptyString.

Fixpoint escape (s : string) : string :=
  match s with
  | EmptyString => EmptyString
  | String c s' => escape_char c +:+ escape s'
  end.

Definition quoted (s : string) : string := quote +:+ escape s +:+ quote.

Definition join (sep : string) (parts : list string) : string :=
  match parts with
  | [] => ""
  | p :: ps => foldl (λ acc q, acc +:+ sep +:+ q) p ps
  end.

Fixpoint stringify (v : JSON) : string :=
  match v with
  | JNull => "null"
  | JBool true => "true"
  | JBool false => "false"
  | JNum z => pretty z
  | JStr s => quoted s
  | JArr items => "[" +:+ join "," (map stringify items) +:+ "]"
  | JObj fields =>
      "{" +:+ join "," (map (λ kv, quoted (fst kv) +:+ ":" +:+ stringify (snd kv)) fields)
          +:+ "}"
  end.

Definition is_ws (c : ascii) : bool :=
  let n := N_of_ascii c in
  (n =? 32)%N || (n =? 9)%N || (n =? 10)%N || (n =? 13)%N.

Fixpoint skip_ws (s : string) : string :=
  match s with
  | String c s' => if is_ws c then skip_ws s' else s
  | EmptyString => s
  end.

Fixpoint strip (prefix s : string) : option string :=
  match prefix, s with
  | EmptyString, _ => Some s
  | String p prefix', String c s' =>
      if Ascii.eqb p c then strip prefix' s' else None
  | String _ _, EmptyString => None
  end.

Definition digit (c : ascii) : option Z :=
  let n := N_of_ascii c in
  if (48 <=? n)%N && (n <=? 57)%N then Some (Z.of_N (n - 48)) else None.

Definition hex (c : ascii) : option N :=
  let n := N_of_ascii c in
  if (48 <=? n)%N && (n <=? 57)%N then Some (n - 48)%N
  else if (97 <=? n)%N && (n <=? 102)%N then Some (n - 87)%N
  else if (65 <=? n)%N && (n <=? 70)%N then Some (n - 55)%N
  else None.

Fixpoint digits (acc : Z) (s : string) : Z * string :=
  match s with
  | String c s' =>
      match digit c with
      | Some d => digits (10 * acc + d) s'
      | None => (acc, s)
      end
  | EmptyString => (acc, s)
  end.

(** A fraction or an exponent would leave the integers. *)
Definition integral (rest : string) : bool :=
  match rest with
  | String c _ => negb (Ascii.eqb c "." || Ascii.eqb c "e" || Ascii.eqb c "E")
  | EmptyString => true
  end.

Definition starts_with_digit (s : string) : bool :=
  match s with
  | String c _ => match digit c with Some _ => true | None => false end
  | EmptyString => false
  end.

(** [0] or a digit from 1 to 9 followed by digits. *)
Definition natural (s : string) : option (Z * string) :=
  match s with
  | String c s' =>
      match digit c with
      | Some d =>
          if (d =? 0)%Z && starts_with_digit s' then None
          else
            let '(n, rest) := digits d s' in
            if integral rest then Some (n, rest) else None
      | None => None
      end
  | EmptyString => None
  end.

Definition number (s : string) : option (Z * string) :=
  match s with
  | String c s' =>
      if Ascii.eqb c "-" then
        '(n, rest) ← natural s'; Some (- n, rest)
      else natural s
  | EmptyString => None
  end.

(** The characters of a string literal after its opening quote, up to and
    without the closing one. *)
Fixpoint chars (s : string) : option (string * string) :=
  match s with
  | EmptyString => None
  | String c s' =>
      if Ascii.eqb c dquote then Some (EmptyString, s')
      else if Ascii.eqb c backslash then
        match s' with
        | EmptyString => None
        | String e s'' =>
            let plain (x : ascii) :=
              '(body, rest) ← chars s''; Some (String x body, rest) in
            if Ascii.eqb e dquote then plain dquote
            else if Ascii.eqb e backslash then plain backslash
            else if Ascii.eqb e "/" then plain "/"%char
            else if Ascii.eqb e "b" then plain (ascii_of_N 8)
            else if Ascii.eqb e "t" then plain (ascii_of_N 9)
            else if Ascii.eqb e "n" then plain (ascii_of_N 10)
            else if Ascii.eqb e "f" then plain (ascii_of_N 12)
            else if Ascii.eqb e "r" then plain (ascii_of_N 13)
            else if Ascii.eqb e "u" then
              match s'' with
              | String a (String b (String c1 (String c2 s3))) =>
                  if Ascii.eqb a "0" && Ascii.eqb b "0" then
                    h ← hex c1; l ← hex c2;
                    '(body, rest) ← chars s3;
                    Some (String (ascii_of_N (16 * h + l)) body, rest)
                  else None
              | _ => None
              end
            else None
        end
      else if (N_of_ascii c <? 32)%N then None
      else '(body, rest) ← chars s'; Some (String c body, rest)
  end.

(** A value, and after the first one the remaining members of an array
    ([elements]) or of an object ([members]), up to the closing bracket. *)
Fixpoint value (fuel : nat) (s : string) : option (JSON * string) :=
  match fuel with
  | O => None
  | S fuel =>
      match skip_ws s with
      | EmptyString => None
      | String c rest as s0 =>
          if Ascii.eqb c "n" then r ← strip "ull" rest; Some (JNull, r)
          else if Ascii.eqb c "t" then r ← strip "rue" rest; Some (JBool true, r)
          else if Ascii.eqb c "f" then r ← strip "alse" rest; Some (JBool false, r)
          else if Ascii.eqb c dquote then
            '(str, r) ← chars rest; Some (JStr str, r)
          else if Ascii.eqb c "[" then
            match skip_ws rest with
            | String c' r as items =>
                if Ascii.eqb c' "]" then Some (JArr [], r)
                else '(vs, r') ← elements fuel items; Some (JArr vs, r')
            | EmptyString => None
            end
          else if Ascii.eqb c "{" then
            match skip_ws rest with
            | String c' r as fields =>
                if Ascii.eqb c' "}" then Some (JObj [], r)
                else '(kvs, r') ← members fuel fields; Some (JObj kvs, r')
            | EmptyString => None
            end
          else '(n, r) ← number s0; Some (JNum n, r)
      end
  end
with elements (fuel : nat) (s : string) : option (list JSON * string) :=
  match fuel with
  | O => None
  | S fuel =>
      '(v, r) ← value fuel s;
      match skip_ws r with
      | String c r' =>
          if Ascii.eqb c "]" then Some ([v], r')
          else if Ascii.eqb c "," then
            '(vs, r'') ← elements fuel r'; Some (v :: vs, r'')
          else None
      | EmptyString => None
      end
  end
with members (fuel : nat) (s : string) : option (list (string * JSON) * string) :=
  match fuel with
  | O => None
  | S fuel =>
      match skip_ws s with
      | String q s' =>
          if Ascii.eqb q dquote then
            '(key, r) ← chars s';
            match skip_ws r with
            | String colon r0 =>
                if Ascii.eqb colon ":" then
                  '(v, r1) ← value fuel r0;
                  match skip_ws r1 with
                  | String c r' =>
                      if Ascii.eqb c "}" then Some ([(key, v)], r')
                      else if Ascii.eqb c "," then
                        '(kvs, r'') ← members fuel r'; Some ((key, v) :: kvs, r'')
                      else None
                  | EmptyString => None
                  end
                else None
            | EmptyString => None
            end
          else None
      | EmptyString => None
      end
  end.

(** One value and nothing but white space around it. *)
Definition parse (s : string) : option JSON :=
  '(v, rest) ← value (2 * String.length s + 2) s;
  match skip_ws rest with
  | EmptyString => Some v
  | String _ _ => None
  end.

Definition runtime : JSONRuntime :=
  {| JSON_parse := parse; JSON_stringify := stringify;
     JSON_parse_empty := eq_refl |}.

End Json.


(** ** Vocabulary of the properties *)

(** None of the first [n] calls of a schedule is refused. *)
Definition refusal_free (n : nat) (F : list bool) : Prop :=
  Forall (λ b, b = false) (take n F).

(** The services serve the next [n] calls; the call after them, the one with
    index [n], is refused when [refuses n w]. *)
Definition answers (n : nat) (w : World) : Prop := refusal_free n (faults w).

Definition refuses (n : nat) (w : World) : Prop := faults w !! n = Some true.

(** The world in which a call has just left and is going to be served. *)
Definition served_world (o : Op) (w : World) : World :=
  with_faults (tail (faults w)) (emit (Called o) w).

(** What a run from [w] to [w'] has added to the record. *)
Definition issued (w w' : World) : list Event :=
  drop (length (trace w)) (trace w').

Definition calls (es : list Event) : list Op :=
  omap (λ e, match e with Called o => Some o | ConsoleError _ _ => None end) es.

Definition store_op (o : Op) : bool :=
  match o with
  | PoolQuerySelect | PoolConnect | ClientQuery _ _ | ClientRelease _ => true
  | RedisGet _ | RedisSetEx _ _ _ | RedisDel _ => false
  end.

Definition cache_write_op (o : Op) : bool :=
  match o with
  | RedisSetEx _ _ _ | RedisDel _ => true
  | RedisGet _ | PoolQuerySelect | PoolConnect | ClientQuery _ _
  | ClientRelease _ => false
  end.

(** The statements of the [try] block of [writeUsers] for a batch. *)
Definition upsert_calls (c : nat) (us : list User) : list Event :=
  (λ u, Called (ClientQuery c (Upsert u))) <$> us.

Definition tx_calls (c : nat) (us : list User) : list Event :=
  Called (ClientQuery c Begin)
    :: upsert_calls c us ++ [Called (ClientQuery c Commit)].

(** The last record of a batch that carries the identifier [i]. *)
Definition last_with (i : string) (us : list User) : option User :=
  last (filter (λ u, id u = i) us).

(** An input without records, or with a record without identifier. *)
Definition malformed (us : list User) : Prop :=
  us = [] ∨ ∃ u, u ∈ us ∧ id u = "".

(** The write fails and nothing was asked of the store. *)
Definition fails_before_persistence (b : Body) (w : World) : Prop :=
  let run := POST {| payload := Some b |} w in
  run.1 = Returned write_failed
  ∧ filter store_op (calls (issued w run.2)) = [].

(** The write is reported as a success although the transaction committed
    and the deletion of the snapshot was refused. *)
Definition success_despite_failed_invalidation (b : Body) (w : World) : Prop :=
  ∀ w1 e w2,
    writeUsers (normalize b) w = (Returned tt, w1) →
    redis_del USERS_CACHE_KEY w1 = (Thrown e, w2) →
    (POST {| payload := Some b |} w).1
    = Returned (write_succeeded (length (normalize b))).

(** ** Sample data *)
Module Sample.

Definition john : User :=
  {| id := "1"; name := "John"; email := "john@x.com"; age := 30 |}.

Definition john_updated : User :=
  {| id := "1"; name := "John Updated"; email := "j2@x.com"; age := 31 |}.

Definition jane : User :=
  {| id := "2"; name := "Jane Smith"; email := "jane@example.com"; age := 25 |}.

Definition nobody : User :=
  {| id := ""; name := "Nobody"; email := "nobody@example.com"; age := 0 |}.

(** Nothing cached, nothing stored, every call served. *)
Definition blank : World :=
  {| redis := ∅; table := ∅; sessions := ∅; faults := []; trace := [] |}.

(** John is stored and nothing is cached. *)
Definition seeded : World := with_table {[ "1" := row_of john ]} blank.

(** John is stored, and cached with 42 seconds to live. *)
Definition snapshot : Entry :=
  {| value := Json.stringify (users_json [john]); ttl := Some 42%nat |}.

Definition warm : World :=
  with_redis {[ USERS_CACHE_KEY := snapshot ]} seeded.

(** The services refuse the call with index [k] and serve the others. *)
Definition refusing (k : nat) (w : World) : World :=
  with_faults (replicate k false ++ [true]) w.

End Sample.


(** The statements of the [try] block of [writeUsers], in order. *)
Definition tx_statements (us : list User) : list Statement :=
  Begin :: (Upsert <$> us) ++ [Commit].

(** What a run has written with [console.error]. *)
Definition logged (es : list Event) : list (string * Error) :=
  omap (λ e, match e with
             | ConsoleError msg err => Some (msg, err)
             | Called _ => None
             end) es.

(** ** The set-up route

    [app/route.ts]: the handler that creates the [users] table, on a client
    of its own that it connects and ends.  Its world holds the relations of
    the database, the state of that client, the number of connections the
    server has open, and, as above, the schedule of refusals and the record
    of the run. *)
Module Setup.

Inductive ColumnType :=
| UUID
| TEXT
| INTEGER
| VARCHAR (n : nat).

Inductive Constraint :=
| PrimaryKey
| Unique
| NotNull.

Record Column := mkColumn {
  column_name : string;
  column_type : ColumnType;
  constraints : list Constraint;
}.

(** The columns of the [CREATE TABLE] statement of the handler. *)
Definition users_columns : list Column :=
  [ mkColumn "id" UUID [PrimaryKey];
    mkColumn "name" TEXT [NotNull];
    mkColumn "email" TEXT [Unique; NotNull];
    mkColumn "age" INTEGER [NotNull] ].

Record Relation := mkRelation {
  columns : list Column;
  rows : gmap string Row;
}.

Inductive Statement :=
| CreateTableIfNotExists (table_name : string) (cols : list Column).

Inductive Op :=
| Connect
| Query (stmt : Statement)
| End_.

Inductive Error :=
| ServiceError (o : Op).

Inductive Event :=
| Called (o : Op)
| ConsoleError (msg : string) (e : Error).

(** The life of a [pg] client. *)
Inductive ClientState :=
| Created
| Connected
| Ended.

Record World := mkWorld {
  relations : gmap string Relation;  (* the tables of the database *)
  client : ClientState;              (* the client of the handler *)
  connections : nat;                 (* connections open on the server *)
  faults : list bool;                (* true: the next call is refused *)
  trace : list Event;                (* everything issued so far *)
}.

Inductive Outcome (A : Type) :=
| Returned (a : A)
| Thrown (e : Error).
Arguments Returned {A} a.
Arguments Thrown {A} e.

Definition M (A : Type) : Type := World → Outcome A * World.

Definition ret {A} (a : A) : M A := λ w, (Returned a, w).

Definition bind {A B} (m : M A) (k : A → M B) : M B :=
  λ w, match m w with
       | (Returned a, w') => k a w'
       | (Thrown e, w') => (Thrown e, w')
       end.

Definition try_catch {A} (body : M A) (handler : Error → M A) : M A :=
  λ w, match body w with
       | (Returned a, w') => (Returned a, w')
       | (Thrown e, w') => handler e w'
       end.

Definition try_finally {A} (body : M A) (cleanup : M unit) : M A :=
  λ w, match body w with
       | (r, w') =>
           match cleanup w' with
           | (Returned _, w'') => (r, w'')
           | (Thrown e, w'') => (Thrown e, w'')
           end
       end.

Declare Scope setup_scope.
Notation "m ;;; k" := (bind m (λ _, k))
  (at level 100, k at level 200, right associativity) : setup_scope.
Local Open Scope setup_scope.

(** A call leaves for the server, as in the users route. *)
Definition issue (o : Op) (w : World) : bool * World :=
  (default false (head (faults w)),
   {| relations := relations w; client := client w;
      connections := connections w; faults := tail (faults w);
      trace := trace w ++ [Called o] |}).

Definition call {A} (o : Op) (served : World → Outcome A * World) : M A :=
  λ w,
    let '(refuse, w') := issue o w in
    if refuse then (Thrown (ServiceError o), w') else served w'.

(** [new Client({ connectionString })]: no traffic yet. *)
Definition new_Client : M unit :=
  λ w, (Returned tt,
        {| relations := relations w; client := Created;
           connections := connections w; faults := faults w;
           trace := trace w |}).

(** [client.connect()] *)
Definition client_connect : M unit :=
  call Connect
    (λ w, (Returned tt,
           {| relations := relations w; client := Connected;
              connections := S (connections w); faults := faults w;
              trace := trace w |})).

(** [CREATE TABLE IF NOT EXISTS]: a relation of that name, whatever its
    columns, makes the statement do nothing. *)
Definition run_statement (stmt : Statement)
    (rels : gmap string Relation) : gmap string Relation :=
  match stmt with
  | CreateTableIfNotExists table_name cols =>
      match rels !! table_name with
      | Some _ => rels
      | None => <[table_name := {| columns := cols; rows := ∅ |}]> rels
      end
  end.

(** [client.query(stmt)]; a client that is not connected cannot send. *)
Definition client_query (stmt : Statement) : M unit :=
  call (Query stmt)
    (λ w, match client w with
          | Connected =>
              (Returned tt,
               {| relations := run_statement stmt (relations w);
                  client := client w; connections := connections w;
                  faults := faults w; trace := trace w |})
          | Created | Ended => (Thrown (ServiceError (Query stmt)), w)
          end).

(** [client.end()] closes the connection of a connected client. *)
Definition client_end : M unit :=
  call End_
    (λ w, (Returned tt,
           {| relations := relations w; client := Ended;
              connections :=
                match client w with
                | Connected => pred (connections w)
                | Created | Ended => connections w
                end;
              faults := faults w; trace := trace w |})).

Definition console_error (msg : string) (e : Error) : M unit :=
  λ w, (Returned tt,
        {| relations := relations w; client := client w;
           connections := connections w; faults := faults w;
           trace := trace w ++ [ConsoleError msg e] |}).

Definition table_ensured : Response :=
  NextResponse_json (JObj [("message", JStr "Table ensured and connected")]) 200.

Definition database_error : Response :=
  NextResponse_json (JObj [("message", JStr "Database error")]) 500.

Definition GET : M Response :=
  new_Client ;;;
  try_finally
    (try_catch
       (client_connect ;;;
        client_query (CreateTableIfNotExists "users" users_columns) ;;;
        ret table_ensured)
       (λ error,
          console_error "Database error:" error ;;;
          ret database_error))
    client_end.

(** The calls a run from [w] to [w'] has issued. *)
Definition issued (w w' : World) : list Event :=
  drop (length (trace w)) (trace w').

Definition calls (es : list Event) : list Op :=
  omap (λ e, match e with Called o => Some o | ConsoleError _ _ => None end) es.

Definition logged (es : list Event) : list (string * Error) :=
  omap (λ e, match e with
             | ConsoleError msg err => Some (msg, err)
             | Called _ => None
             end) es.

Definition answers (n : nat) (w : World) : Prop := refusal_free n (faults w).

Definition refuses (n : nat) (w : World) : Prop := faults w !! n = Some true.

(** A database without tables and a server without connections. *)
Definition blank : World :=
  {| relations := ∅; client := Ended; connections := 0; faults := [];
     trace := [] |}.

(** A database whose [users] table was created with a [VARCHAR] key and
    holds a row. *)
Definition legacy : World :=
  {| relations :=
       {[ "users" :=
            {| columns :=
                 [ mkColumn "id" (VARCHAR 255) [PrimaryKey];
                   mkColumn "name" TEXT [NotNull];
                   mkColumn "email" TEXT [Unique; NotNull];
                   mkColumn "age" INTEGER [NotNull] ];
               rows := {[ "1" := mkRow "John" "john@x.com" 30 ]} |} ]};
     client := Ended; connections := 0; faults := []; trace := [] |}.

Definition refusing (k : nat) (w : World) : World :=
  {| relations := relations w; client := client w;
     connections := connections w; faults := replicate k false ++ [true];
     trace := trace w |}.

End Setup.

(** ** More sample data *)
Module MoreSamples.

(** John is stored; under the users key there is a text that is no JSON. *)
Definition corrupt : World :=
  with_redis {[ USERS_CACHE_KEY := {| value := "{oops"; ttl := Some 10%nat |} ]}
    Sample.seeded.

(** John is stored; under the users key there is the empty string. *)
Definition emptied : World :=
  with_redis {[ USERS_CACHE_KEY := {| value := ""; ttl := None |} ]}
    Sample.seeded.

End MoreSamples.


(** * Properties *)

(** ** Schedules *)

Lemma refusal_free_at n F i :
  refusal_free n F → (i < n)%nat → F !! i ≠ Some true.
Proof.
  unfold refusal_free. rewrite Forall_lookup. intros HF Hi Hl.
  by specialize (HF i true ltac:(by rewrite lookup_take_lt)).
Qed.

Lemma refusal_free_intro n F :
  (∀ i, (i < n)%nat → F !! i ≠ Some true) → refusal_free n F.
Proof.
  intros HF. apply Forall_lookup. intros i b Hb.
  apply lookup_take_Some in Hb as [Hb Hi].
  destruct b; [|done]. by destruct (HF i Hi).
Qed.

Lemma refusal_free_drop n m F :
  refusal_free (n + m) F → refusal_free m (drop n F).
Proof.
  intros HF. apply refusal_free_intro. intros i Hi.
  rewrite lookup_drop. apply (refusal_free_at _ _ _ HF). lia.
Qed.

Lemma refusal_free_le n m F :
  (m ≤ n)%nat → refusal_free n F → refusal_free m F.
Proof.
  intros Hle HF. apply refusal_free_intro. intros i Hi.
  apply (refusal_free_at _ _ _ HF). lia.
Qed.

(** Among the first [n] calls either none is refused or one is the first. *)
Lemma first_refusal n (F : list bool) :
  refusal_free n F
  ∨ ∃ k, (k < n)%nat ∧ refusal_free k F ∧ F !! k = Some true.
Proof.
  induction n as [|n IH].
  - left. apply refusal_free_intro. intros i Hi. lia.
  - destruct IH as [HF|(k & Hk & HF & Hr)].
    + destruct (decide (F !! n = Some true)) as [Hn|Hn].
      * right. exists n. split; [lia|done].
      * left. apply refusal_free_intro. intros i Hi.
        destruct (decide (i = n)) as [->|]; [done|].
        apply (refusal_free_at _ _ _ HF). lia.
    + right. exists k. split; [lia|done].
Qed.

(** The first refusal of a schedule is at one index only. *)
Lemma first_refusal_unique F j k :
  refusal_free j F → F !! j = Some true →
  refusal_free k F → F !! k = Some true → j = k.
Proof.
  intros Hj Hjr Hk Hkr.
  destruct (decide (j < k)%nat) as [Hlt|?].
  { by destruct (refusal_free_at _ _ _ Hk Hlt). }
  destruct (decide (k < j)%nat) as [Hlt|?]; [|lia].
  by destruct (refusal_free_at _ _ _ Hj Hlt).
Qed.

Lemma tail_drop {A} (l : list A) : tail l = drop 1 l.
Proof. by destruct l. Qed.

Lemma issued_app w w' es : trace w' = trace w ++ es → issued w w' = es.
Proof. unfold issued. intros ->. by rewrite drop_app_length. Qed.

(** ** Calls *)

Section Calls.
Context {A : Type}.
Implicit Types (o : Op) (w : World) (refused : World → World)
  (served : World → Outcome A * World).

Lemma call_refused o refused served w :
  faults w !! 0%nat = Some true →
  call o refused served w
  = (Thrown (ServiceError o), refused (served_world o w)).
Proof.
  unfold call, issue, served_world.
  destruct (faults w) as [|[] fs]; simpl; congruence.
Qed.

Lemma call_served o refused served w :
  faults w !! 0%nat ≠ Some true →
  call o refused served w = served (served_world o w).
Proof.
  unfold call, issue, served_world.
  destruct (faults w) as [|[] fs]; simpl; congruence.
Qed.

Lemma call_cases o refused served w :
  (faults w !! 0%nat = Some true
   ∧ call o refused served w
     = (Thrown (ServiceError o), refused (served_world o w)))
  ∨ (faults w !! 0%nat ≠ Some true
     ∧ call o refused served w = served (served_world o w)).
Proof.
  destruct (decide (faults w !! 0%nat = Some true)) as [E|E].
  - left. split; [done|]. by apply call_refused.
  - right. split; [done|]. by apply call_served.
Qed.
End Calls.

Lemma answers_next n w o :
  answers (S n) w →
  faults w !! 0%nat ≠ Some true ∧ answers n (served_world o w).
Proof.
  unfold answers. intros HF. split.
  - apply (refusal_free_at _ _ _ HF). lia.
  - unfold served_world; simpl. rewrite tail_drop.
    by apply (refusal_free_drop 1).
Qed.

(** ** The read path *)

Section ReadPath.
Context `{JSONRuntime}.

Lemma parsed_not_empty text v : JSON_parse text = Some v → text ≠ "".
Proof. intros Hp ->. rewrite JSON_parse_empty in Hp. done. Qed.

(** A probe that is served and finds a string that parses. *)
Lemma GET_hit w e v :
  redis w !! USERS_CACHE_KEY = Some e →
  JSON_parse (value e) = Some v →
  answers 1 w →
  GET w = (Returned (NextResponse_json v 200),
           served_world (RedisGet USERS_CACHE_KEY) w).
Proof.
  intros Hr Hp Ha.
  pose proof (parsed_not_empty _ _ Hp) as Hne.
  destruct (answers_next _ _ (RedisGet USERS_CACHE_KEY) Ha) as [H0 _].
  unfold GET, try_catch, bind, redis_get.
  rewrite call_served by done. simpl. rewrite Hr. simpl.
  destruct (value e) as [|a s] eqn:Hv; [done|].
  unfold JSON_parse_or_throw. by rewrite Hp.
Qed.

(** A probe that is served and finds nothing, followed by a query and a
    store in the cache that are served too. *)
Lemma GET_miss w :
  redis w !! USERS_CACHE_KEY = None →
  answers 3 w →
  let users := select_users (table w) in
  let text := JSON_stringify (users_json users) in
  (GET w).1 = Returned (NextResponse_json (users_json users) 200)
  ∧ redis (GET w).2
    = <[USERS_CACHE_KEY := {| value := text; ttl := Some USERS_CACHE_TTL |}]> (redis w)
  ∧ table (GET w).2 = table w
  ∧ issued w (GET w).2
    = [Called (RedisGet USERS_CACHE_KEY); Called PoolQuerySelect;
       Called (RedisSetEx USERS_CACHE_KEY text USERS_CACHE_TTL)].
Proof.
  intros Hr Ha users text.
  destruct (answers_next _ _ (RedisGet USERS_CACHE_KEY) Ha) as [H0 Ha1].
  destruct (answers_next _ _ PoolQuerySelect Ha1) as [H1 Ha2].
  destruct (answers_next _ _
    (RedisSetEx USERS_CACHE_KEY text USERS_CACHE_TTL) Ha2) as [H2 _].
  unfold GET, try_catch, bind, redis_get.
  rewrite call_served by done. simpl. rewrite Hr. simpl.
  unfold readUsers, bind, pool_query_select.
  rewrite call_served by done. simpl.
  unfold redis_set_ex. rewrite call_served by done. simpl.
  repeat split; try done.
  apply issued_app; simpl. by rewrite <- !app_assoc.
Qed.

Lemma aged_fresh_snapshot text s :
  aged s {| value := text; ttl := Some USERS_CACHE_TTL |}
  = if decide (60 ≤ s)%nat then None
    else Some {| value := text; ttl := Some (60 - s)%nat |}.
Proof. done. Qed.

(** [GET] catches whatever its body throws: it always answers, with 200 or
    with the generic failure. *)
Lemma GET_returns w :
  ∃ resp,
    (GET w).1 = Returned resp ∧ (status resp = 200%nat ∨ resp = fetch_failed).
Proof.
  unfold GET, try_catch, bind, redis_get.
  destruct (call_cases (A := option string) (RedisGet USERS_CACHE_KEY) (λ w, w)
              (λ w, (Returned (value <$> redis w !! USERS_CACHE_KEY), w)) w)
    as [[_ ->]|[_ ->]]; simpl; [by eauto|].
  set (w1 := served_world _ w).
  destruct (redis w !! USERS_CACHE_KEY) as [[[|a s] t]|]; simpl.
  2:{ unfold JSON_parse_or_throw.
      destruct (JSON_parse (String a s)); simpl; by eauto. }
  all: unfold readUsers, bind, pool_query_select;
    destruct (call_cases (A := list User) PoolQuerySelect (λ w, w)
                (λ w, (Returned (select_users (table w)), w)) w1)
      as [[_ ->]|[_ ->]]; simpl; [by eauto|];
    unfold redis_set_ex;
    match goal with
    | |- context [call ?o ?r ?s ?w0] =>
        destruct (call_cases o r s w0) as [[_ ->]|[_ ->]]
    end; simpl; by eauto.
Qed.

(** C1 (cache-hit short-circuit).  In every state in which the cache holds,
    under the users key, a text that [JSON.parse] accepts, [GET] never calls
    the store; and when the probe is served it answers 200 with exactly the
    parsed snapshot, the probe being the only call of the run. *)
Theorem GET_cache_hit w e v :
  redis w !! USERS_CACHE_KEY = Some e →
  JSON_parse (value e) = Some v →
  (answers 1 w →
     (GET w).1 = Returned (NextResponse_json v 200)
     ∧ issued w (GET w).2 = [Called (RedisGet USERS_CACHE_KEY)])
  ∧ filter store_op (calls (issued w (GET w).2)) = []
  ∧ table (GET w).2 = table w.
Proof.
  intros Hr Hp. split.
  - intros Ha. rewrite (GET_hit w e v) by done. split; [done|].
    by apply issued_app.
  - pose proof (parsed_not_empty _ _ Hp) as Hne.
    unfold GET, try_catch, bind, redis_get.
    destruct (call_cases (A := option string) (RedisGet USERS_CACHE_KEY) (λ w, w)
                (λ w, (Returned (value <$> redis w !! USERS_CACHE_KEY), w)) w)
      as [[_ ->]|[_ ->]]; simpl.
    + split; [|done]. unfold issued; simpl.
      by rewrite <- app_assoc, drop_app_length.
    + rewrite Hr; simpl. destruct (value e) as [|a s] eqn:Hv; [done|].
      unfold JSON_parse_or_throw. rewrite Hp. simpl.
      split; [|done]. unfold issued; simpl. by rewrite drop_app_length.
Qed.

(** C10 (a hit is read-only).  In every state in which the cache holds a
    snapshot under the users key, a read that hits it (the probe finds a
    string that is not empty) leaves the whole cache as it was, value and
    remaining time to live included, and issues no writing call to the
    cache, whether or not the probe is served and the snapshot parses. *)
Theorem GET_hit_leaves_cache w e :
  redis w !! USERS_CACHE_KEY = Some e →
  value e ≠ "" →
  redis (GET w).2 = redis w
  ∧ filter cache_write_op (calls (issued w (GET w).2)) = [].
Proof.
  intros Hr Hne.
  unfold GET, try_catch, bind, redis_get.
  destruct (call_cases (A := option string) (RedisGet USERS_CACHE_KEY) (λ w, w)
              (λ w, (Returned (value <$> redis w !! USERS_CACHE_KEY), w)) w)
    as [[_ ->]|[_ ->]]; simpl.
  - split; [done|]. unfold issued; simpl.
    by rewrite <- app_assoc, drop_app_length.
  - rewrite Hr; simpl. destruct (value e) as [|a s] eqn:Hv; [done|].
    unfold JSON_parse_or_throw. destruct (JSON_parse (String a s)); simpl.
    + split; [done|]. unfold issued; simpl. by rewrite drop_app_length.
    + split; [done|]. unfold issued; simpl.
      by rewrite <- app_assoc, drop_app_length.
Qed.

(** C6 (miss, then populate).  For every store state, with [R] the rows of
    its users table, and a cache without the users key: when the three calls
    of the read are served, [GET] answers 200 with [R], and afterwards the
    cache holds [JSON.stringify(R)] under the users key with 60 seconds to
    live: it is still there after 59 seconds and gone after 60. *)
Theorem GET_miss_then_populate w :
  redis w !! USERS_CACHE_KEY = None →
  answers 3 w →
  let R := select_users (table w) in
  let text := JSON_stringify (users_json R) in
  let w' := (GET w).2 in
  (GET w).1 = Returned (NextResponse_json (users_json R) 200)
  ∧ redis w' !! USERS_CACHE_KEY = Some {| value := text; ttl := Some 60%nat |}
  ∧ (∀ s, (s < 60)%nat →
       redis (elapse s w') !! USERS_CACHE_KEY
       = Some {| value := text; ttl := Some (60 - s)%nat |})
  ∧ redis (elapse 60 w') !! USERS_CACHE_KEY = None.
Proof.
  intros Hr Ha R text w'.
  destruct (GET_miss w Hr Ha) as (Hres & Hc & _ & _).
  fold R text w' in Hres, Hc.
  assert (redis w' !! USERS_CACHE_KEY
          = Some {| value := text; ttl := Some USERS_CACHE_TTL |}) as Hl
    by (rewrite Hc; apply lookup_insert_eq).
  repeat split; [done|done| |].
  - intros s Hs. unfold elapse; simpl. rewrite lookup_omap, Hl. simpl.
    rewrite aged_fresh_snapshot. by rewrite decide_False by lia.
  - unfold elapse; simpl. by rewrite lookup_omap, Hl.
Qed.

(** C8 (empty collection).  With no users key in the cache and no row in
    the users table, a read whose three calls are served answers 200 with
    the empty array, not an error, and caches the serialization of the empty
    array with 60 seconds to live. *)
Theorem GET_empty_collection w :
  table w = ∅ →
  redis w !! USERS_CACHE_KEY = None →
  answers 3 w →
  (GET w).1 = Returned (NextResponse_json (JArr []) 200)
  ∧ redis (GET w).2 !! USERS_CACHE_KEY
    = Some {| value := JSON_stringify (JArr []); ttl := Some 60%nat |}.
Proof.
  intros Ht Hr Ha.
  destruct (GET_miss w Hr Ha) as (Hres & Hc & _ & _).
  rewrite Ht in Hres, Hc. unfold select_users in Hres, Hc.
  rewrite map_to_list_empty in Hres, Hc.
  split; [done|]. rewrite Hc. apply lookup_insert_eq.
Qed.
End ReadPath.

(** ** The write path *)

Ltac same_world := repeat (f_equal; try done; try lia).

Section Steps.
Implicit Types (R : gmap string Entry) (T t : gmap string Row)
  (Ss : gmap nat TxState) (F : list bool) (L : list Event).

Lemma call_served_at {A} o refused (served : World → Outcome A * World) R T Ss F L :
  F !! 0%nat ≠ Some true →
  call o refused served (mkWorld R T Ss F L)
  = served (mkWorld R T Ss (drop 1 F) (L ++ [Called o])).
Proof.
  intros HF. rewrite call_served by done.
  unfold served_world; simpl. by rewrite tail_drop.
Qed.

Lemma call_refused_at {A} o refused (served : World → Outcome A * World) R T Ss F L :
  F !! 0%nat = Some true →
  call o refused served (mkWorld R T Ss F L)
  = (Thrown (ServiceError o), refused (mkWorld R T Ss (drop 1 F) (L ++ [Called o]))).
Proof.
  intros HF. rewrite call_refused by done.
  unfold served_world; simpl. by rewrite tail_drop.
Qed.

Lemma begin_served c R T Ss F L :
  F !! 0%nat ≠ Some true →
  client_query c Begin (mkWorld R T (<[c := Idle]> Ss) F L)
  = (Returned tt,
     mkWorld R T (<[c := Active T]> Ss) (drop 1 F) (L ++ [Called (ClientQuery c Begin)])).
Proof.
  intros HF. unfold client_query. rewrite call_served_at by done.
  unfold execute; simpl. rewrite lookup_insert_eq.
  unfold with_sessions; simpl. by rewrite insert_insert_eq.
Qed.

Lemma upsert_served c u t R T Ss F L :
  F !! 0%nat ≠ Some true →
  client_query c (Upsert u) (mkWorld R T (<[c := Active t]> Ss) F L)
  = (Returned tt,
     mkWorld R T (<[c := Active (upsert u t)]> Ss) (drop 1 F)
       (L ++ [Called (ClientQuery c (Upsert u))])).
Proof.
  intros HF. unfold client_query. rewrite call_served_at by done.
  unfold execute; simpl. rewrite lookup_insert_eq.
  unfold with_sessions; simpl. by rewrite insert_insert_eq.
Qed.

Lemma commit_served c t R T Ss F L :
  F !! 0%nat ≠ Some true →
  client_query c Commit (mkWorld R T (<[c := Active t]> Ss) F L)
  = (Returned tt,
     mkWorld R t (<[c := Idle]> Ss) (drop 1 F) (L ++ [Called (ClientQuery c Commit)])).
Proof.
  intros HF. unfold client_query. rewrite call_served_at by done.
  unfold execute; simpl. rewrite lookup_insert_eq.
  unfold with_sessions; simpl. by rewrite insert_insert_eq.
Qed.

(** A refused statement leaves the committed table alone, whatever the
    session was doing. *)
Lemma statement_refused c stmt st R T Ss F L :
  F !! 0%nat = Some true →
  ∃ st',
    client_query c stmt (mkWorld R T (<[c := st]> Ss) F L)
    = (Thrown (ServiceError (ClientQuery c stmt)),
       mkWorld R T (<[c := st']> Ss) (drop 1 F) (L ++ [Called (ClientQuery c stmt)])).
Proof.
  intros HF. unfold client_query. rewrite call_refused_at by done.
  unfold fail_statement; simpl. rewrite lookup_insert_eq.
  destruct st; simpl; eauto.
  eexists. unfold with_sessions; simpl. by rewrite insert_insert_eq.
Qed.

(** [ROLLBACK] never touches the committed table, served or not. *)
Lemma rollback_run c st R T Ss F L :
  ∃ r st',
    client_query c Rollback (mkWorld R T (<[c := st]> Ss) F L)
    = (r, mkWorld R T (<[c := st']> Ss) (drop 1 F)
            (L ++ [Called (ClientQuery c Rollback)])).
Proof.
  destruct (decide (F !! 0%nat = Some true)) as [HF|HF].
  - destruct (statement_refused c Rollback st R T Ss F L HF) as [st' ->]. eauto.
  - unfold client_query. rewrite call_served_at by done.
    unfold execute; simpl. rewrite lookup_insert_eq.
    exists (Returned tt), Idle.
    destruct st; unfold with_sessions; simpl; by rewrite insert_insert_eq.
Qed.

Lemma upserts_served c us : ∀ t R T Ss F L,
  refusal_free (length us) F →
  for_of us (λ user, client_query c (Upsert user))
    (mkWorld R T (<[c := Active t]> Ss) F L)
  = (Returned tt,
     mkWorld R T (<[c := Active (foldl (flip upsert) t us)]> Ss)
       (drop (length us) F) (L ++ upsert_calls c us)).
Proof.
  induction us as [|u us IH]; intros t R T Ss F L HF; simpl.
  - unfold ret. by rewrite drop_0, app_nil_r.
  - unfold bind. rewrite upsert_served by (apply (refusal_free_at _ _ _ HF); simpl; lia).
    rewrite IH by (apply (refusal_free_drop 1), HF).
    by rewrite drop_drop, <- app_assoc.
Qed.

Lemma upserts_refused c us : ∀ k u t R T Ss F L,
  us !! k = Some u →
  refusal_free k F →
  F !! k = Some true →
  ∃ st,
    for_of us (λ user, client_query c (Upsert user))
      (mkWorld R T (<[c := Active t]> Ss) F L)
    = (Thrown (ServiceError (ClientQuery c (Upsert u))),
       mkWorld R T (<[c := st]> Ss) (drop (S k) F)
         (L ++ upsert_calls c (take (S k) us))).
Proof.
  induction us as [|u0 us IH]; intros k u t R T Ss F L Hu HF Hk; [done|].
  destruct k as [|k]; simpl in Hu.
  - injection Hu as ->. simpl. unfold bind.
    destruct (statement_refused c (Upsert u) (Active t) R T Ss F L Hk) as [st ->].
    exists st. simpl. done.
  - simpl. unfold bind. rewrite upsert_served by (apply (refusal_free_at _ _ _ HF); lia).
    destruct (IH k u (upsert u0 t) R T Ss (drop 1 F)
                (L ++ [Called (ClientQuery c (Upsert u0))]) Hu) as [st ->].
    + apply (refusal_free_drop 1), HF.
    + by rewrite lookup_drop.
    + exists st. by rewrite drop_drop, <- app_assoc.
Qed.

Lemma release_at c st R T Ss F L :
  Ss !! c = None →
  client_release c (mkWorld R T (<[c := st]> Ss) F L)
  = (Returned tt, mkWorld R T Ss F (L ++ [Called (ClientRelease c)])).
Proof.
  intros Hc. unfold client_release, with_sessions; simpl.
  by rewrite delete_insert_eq, delete_id.
Qed.

Lemma fresh_session Ss : Ss !! fresh (dom Ss) = None.
Proof. apply not_elem_of_dom, is_fresh. Qed.

(** The three statements-or-groups of the [try] block of [writeUsers], on a
    session that has just been checked out. *)
Lemma transaction_committed c us R T Ss F L :
  refusal_free (length us + 2) F →
  (client_query c Begin ;;;
   for_of us (λ user, client_query c (Upsert user)) ;;;
   client_query c Commit) (mkWorld R T (<[c := Idle]> Ss) F L)
  = (Returned tt,
     mkWorld R (foldl (flip upsert) T us) (<[c := Idle]> Ss)
       (drop (length us + 2) F) (L ++ tx_calls c us)).
Proof.
  intros HF. unfold bind.
  rewrite begin_served by (apply (refusal_free_at _ _ _ HF); lia).
  rewrite upserts_served
    by (apply (refusal_free_le (length us + 1)); [lia|];
        apply (refusal_free_drop 1), (refusal_free_le (length us + 2)); [lia|done]).
  rewrite commit_served
    by (rewrite drop_drop, lookup_drop; apply (refusal_free_at _ _ _ HF); lia).
  rewrite !drop_drop. unfold tx_calls.
  rewrite <- !app_assoc. same_world.
Qed.

Lemma transaction_failed c us k R T Ss F L :
  (k < length us + 2)%nat →
  refusal_free k F →
  F !! k = Some true →
  ∃ err st,
    (client_query c Begin ;;;
     for_of us (λ user, client_query c (Upsert user)) ;;;
     client_query c Commit) (mkWorld R T (<[c := Idle]> Ss) F L)
    = (Thrown err,
       mkWorld R T (<[c := st]> Ss) (drop (S k) F)
         (L ++ take (S k) (tx_calls c us))).
Proof.
  intros Hk HF Hr. unfold bind.
  destruct k as [|k].
  { destruct (statement_refused c Begin Idle R T Ss F L Hr) as [st ->].
    exists (ServiceError (ClientQuery c Begin)), st.
    unfold tx_calls. simpl. by rewrite take_0. }
  rewrite begin_served by (apply (refusal_free_at _ _ _ HF); lia).
  destruct (decide (k < length us)%nat) as [Hlt|Hge].
  - destruct (lookup_lt_is_Some_2 us k Hlt) as [u Hu].
    destruct (upserts_refused c us k u T R T Ss (drop 1 F)
                (L ++ [Called (ClientQuery c Begin)]) Hu) as [st ->].
    + apply (refusal_free_drop 1), HF.
    + by rewrite lookup_drop.
    + exists (ServiceError (ClientQuery c (Upsert u))), st.
      rewrite drop_drop, <- app_assoc. unfold tx_calls, upsert_calls. simpl.
      rewrite take_app_le by (rewrite length_fmap; lia).
      by rewrite fmap_take.
  - assert (k = length us) as -> by lia.
    rewrite upserts_served by (apply (refusal_free_drop 1), HF).
    destruct (statement_refused c Commit (Active (foldl (flip upsert) T us)) R T Ss
                (drop (length us) (drop 1 F))
                (L ++ [Called (ClientQuery c Begin)] ++ upsert_calls c us))
      as [st Hst].
    { rewrite drop_drop, lookup_drop, <- Hr. f_equal. lia. }
    rewrite app_assoc in Hst. rewrite Hst.
    exists (ServiceError (ClientQuery c Commit)), st.
    rewrite !drop_drop, <- !app_assoc. unfold tx_calls. simpl.
    rewrite take_ge
      by (unfold upsert_calls; simpl; rewrite length_app, length_fmap; simpl; lia).
    same_world.
Qed.

Lemma connect_served R T Ss F L :
  F !! 0%nat ≠ Some true →
  pool_connect (mkWorld R T Ss F L)
  = (Returned (fresh (dom Ss)),
     mkWorld R T (<[fresh (dom Ss) := Idle]> Ss) (drop 1 F) (L ++ [Called PoolConnect])).
Proof. intros HF. unfold pool_connect. by rewrite call_served_at. Qed.

(** Every run of [writeUsers]: the pool refuses the client; or a statement
    of the transaction is refused, the [k]-th of [BEGIN], the upserts and
    [COMMIT]; or all of them are served. *)
Lemma writeUsers_run us R T Ss F L :
  let c := fresh (dom Ss) in
  let w := mkWorld R T Ss F L in
  (F !! 0%nat = Some true
   ∧ writeUsers us w
     = (Thrown (ServiceError PoolConnect),
        mkWorld R T Ss (drop 1 F) (L ++ [Called PoolConnect])))
  ∨ (∃ k err,
       (k < length us + 2)%nat ∧ refusal_free (S k) F ∧ F !! S k = Some true
       ∧ writeUsers us w
         = (Thrown err,
            mkWorld R T Ss (drop (k + 3) F)
              (L ++ Called PoolConnect :: take (S k) (tx_calls c us)
                 ++ [Called (ClientQuery c Rollback); Called (ClientRelease c)])))
  ∨ (refusal_free (length us + 3) F
     ∧ writeUsers us w
       = (Returned tt,
          mkWorld R (foldl (flip upsert) T us) Ss (drop (length us + 3) F)
            (L ++ Called PoolConnect :: tx_calls c us ++ [Called (ClientRelease c)]))).
Proof.
  intros c w. subst w.
  destruct (first_refusal (length us + 3) F) as [HF|(k0 & Hk0 & HF & Hr)].
  - right; right. split; [done|].
    unfold writeUsers. unfold bind at 1.
    rewrite connect_served by (apply (refusal_free_at _ _ _ HF); lia). fold c.
    unfold try_finally, try_catch.
    rewrite transaction_committed
      by (apply (refusal_free_drop 1), (refusal_free_le (length us + 3)); [lia|done]).
    rewrite release_at by apply fresh_session.
    rewrite drop_drop, <- !app_assoc. same_world.
  - destruct k0 as [|k].
    + left. split; [done|].
      unfold writeUsers, bind, pool_connect. by rewrite call_refused_at.
    + right; left.
      unfold writeUsers. unfold bind at 1.
      rewrite connect_served by (apply (refusal_free_at _ _ _ HF); lia). fold c.
      unfold try_finally, try_catch.
      destruct (transaction_failed c us k R T Ss (drop 1 F) (L ++ [Called PoolConnect]))
        as (err & st & ->).
      { lia. }
      { apply (refusal_free_drop 1), HF. }
      { by rewrite lookup_drop. }
      destruct (rollback_run c st R T Ss (drop (S k) (drop 1 F))
                  ((L ++ [Called PoolConnect]) ++ take (S k) (tx_calls c us)))
        as (r & st' & Hrb).
      unfold bind. rewrite Hrb.
      exists k. destruct r as [[]|err'].
      * exists err. split; [lia|]. split; [done|]. split; [done|].
        unfold throw. rewrite release_at by apply fresh_session.
        rewrite !drop_drop, <- !app_assoc. same_world.
      * exists err'. split; [lia|]. split; [done|]. split; [done|].
        rewrite release_at by apply fresh_session.
        rewrite !drop_drop, <- !app_assoc. same_world.
Qed.
End Steps.

(** What a run of [writeUsers] leaves behind, whatever the services do. *)
Lemma writeUsers_outcome us w :
  let run := writeUsers us w in
  redis run.2 = redis w
  ∧ sessions run.2 = sessions w
  ∧ match run.1 with
    | Returned _ => table run.2 = foldl (flip upsert) (table w) us
    | Thrown _ => table run.2 = table w
    end.
Proof.
  destruct w as [R T Ss F L]; simpl.
  destruct (writeUsers_run us R T Ss F L)
    as [[_ ->]|[(k & err & _ & _ & _ & ->)|[_ ->]]]; done.
Qed.

(** The row that a sequence of upserts leaves under an identifier. *)
Lemma foldl_upsert_lookup us : ∀ (t : gmap string Row) i,
  foldl (flip upsert) t us !! i
  = match last_with i us with
    | Some u => Some (row_of u)
    | None => t !! i
    end.
Proof.
  unfold last_with.
  induction us as [|u us IH]; intros t i; simpl; [done|].
  rewrite IH, filter_cons. unfold flip, upsert.
  destruct (decide (id u = i)) as [<-|Hne].
  - destruct (filter _ us) as [|u' l] eqn:Hf; simpl.
    + by rewrite lookup_insert_eq.
    + destruct (last (u' :: l)) eqn:Hl; [done|]. by apply last_None in Hl.
  - destruct (last _); [done|]. by rewrite lookup_insert_ne.
Qed.

Lemma last_with_id i us u : last_with i us = Some u → id u = i.
Proof.
  unfold last_with. intros Hl. apply last_Some_elem_of in Hl.
  by apply list_elem_of_filter in Hl as [? _].
Qed.

(** What [POST] makes of the results of its steps. *)
Lemma POST_unparseable w :
  POST {| payload := None |} w
  = (Returned write_failed,
     emit (ConsoleError "POST /users failed:" SyntaxError) w).
Proof. done. Qed.

Lemma POST_write_thrown b w err w1 :
  writeUsers (normalize b) w = (Thrown err, w1) →
  POST {| payload := Some b |} w
  = (Returned write_failed, emit (ConsoleError "POST /users failed:" err) w1).
Proof.
  intros Hw. unfold POST, try_catch, req_json; simpl.
  unfold bind at 1. unfold ret at 1. unfold bind at 1. by rewrite Hw.
Qed.

Lemma POST_write_returned b w w1 :
  writeUsers (normalize b) w = (Returned tt, w1) →
  POST {| payload := Some b |} w
  = match redis_del USERS_CACHE_KEY w1 with
    | (Returned _, w2) =>
        (Returned (write_succeeded (length (normalize b))), w2)
    | (Thrown err, w2) =>
        (Returned write_failed,
         emit (ConsoleError "POST /users failed:" err) w2)
    end.
Proof.
  intros Hw. unfold POST, try_catch, req_json; simpl.
  unfold bind at 1. unfold ret at 1. unfold bind at 1. rewrite Hw.
  unfold bind. by destruct (redis_del USERS_CACHE_KEY w1) as [[[]|err] w2].
Qed.

Lemma redis_del_returned k w w' :
  redis_del k w = (Returned tt, w') →
  w' = with_redis (delete k (redis w)) (served_world (RedisDel k) w).
Proof.
  unfold redis_del.
  destruct (call_cases (A := unit) (RedisDel k) (λ w, w)
              (λ w, (Returned tt, with_redis (delete k (redis w)) w)) w)
    as [[_ ->]|[_ ->]]; [done|].
  by intros [= <-].
Qed.

Lemma redis_del_thrown k w e w' :
  redis_del k w = (Thrown e, w') →
  w' = served_world (RedisDel k) w.
Proof.
  unfold redis_del.
  destruct (call_cases (A := unit) (RedisDel k) (λ w, w)
              (λ w, (Returned tt, with_redis (delete k (redis w)) w)) w)
    as [[_ ->]|[_ ->]]; [|done].
  by intros [= _ <-].
Qed.

(** [POST] answers with one of its two payloads, and with the success
    payload only after a transaction that committed and a deletion that was
    served. *)
Lemma POST_outcome req w :
  (POST req w).1 = Returned write_failed
  ∨ ∃ b w1,
      payload req = Some b
      ∧ writeUsers (normalize b) w = (Returned tt, w1)
      ∧ POST req w
        = (Returned (write_succeeded (length (normalize b))),
           with_redis (delete USERS_CACHE_KEY (redis w1))
             (served_world (RedisDel USERS_CACHE_KEY) w1)).
Proof.
  destruct req as [[b|]]; [|by left].
  destruct (writeUsers (normalize b) w) as [[[]|err] w1] eqn:Hw.
  - rewrite (POST_write_returned b w w1 Hw).
    destruct (redis_del USERS_CACHE_KEY w1) as [[[]|e] w2] eqn:Hd.
    + right. exists b, w1. apply redis_del_returned in Hd as ->. done.
    + by left.
  - left. by rewrite (POST_write_thrown b w err w1 Hw).
Qed.

Lemma POST_returns req w :
  ∃ resp,
    (POST req w).1 = Returned resp ∧ (status resp = 200%nat ∨ resp = write_failed).
Proof.
  destruct (POST_outcome req w) as [->|(b & w1 & _ & _ & ->)]; by eauto.
Qed.

(** Writing a record twice is writing it once. *)
Lemma upsert_idempotent u (t : gmap string Row) :
  upsert u (upsert u t) = upsert u t.
Proof. unfold upsert. apply insert_insert_eq. Qed.

Lemma write_succeeded_status n : status (write_succeeded n) = 200%nat.
Proof. done. Qed.

Lemma last_cons_app_two {A} (x : A) l a b : last (x :: l ++ [a; b]) = Some b.
Proof.
  replace (x :: l ++ [a; b]) with ((x :: l ++ [a]) ++ [b])
    by (simpl; by rewrite <- app_assoc).
  apply last_snoc.
Qed.

(** C2 (write atomicity, release).  For every batch and state: if the
    client is granted, [BEGIN] is served and the upsert of the record at
    index [k] is the first call to be refused, then [writeUsers] throws,
    [ROLLBACK] has been issued, and the committed table is what it was
    before the call, so that none of the batch is visible; and in every run,
    committed or rolled back, no client remains checked out, the release
    being the last call once a client was granted. *)
Theorem writeUsers_all_or_nothing us w :
  let c := fresh (dom (sessions w)) in
  let run := writeUsers us w in
  (∀ k u,
     us !! k = Some u → answers (k + 2) w → refuses (k + 2) w →
     (∃ err, run.1 = Thrown err)
     ∧ table run.2 = table w
     ∧ select_users (table run.2) = select_users (table w)
     ∧ Called (ClientQuery c Rollback) ∈ issued w run.2)
  ∧ sessions run.2 = sessions w
  ∧ (answers 1 w → last (issued w run.2) = Some (Called (ClientRelease c))).
Proof.
  intros c run. subst run. split; [|split].
  - intros k u Hu Ha Hr.
    destruct w as [R T Ss F L]. unfold answers, refuses in Ha, Hr.
    simpl in Ha, Hr, c.
    destruct (writeUsers_run us R T Ss F L)
      as [[H0 _]|[(j & err & Hj & Hfree & Hrj & ->)|[Hfree _]]].
    + destruct (refusal_free_at _ _ 0%nat Ha ltac:(lia) H0).
    + simpl. split; [by eexists|]. split; [done|]. split; [done|].
      unfold issued; simpl. rewrite drop_app_length.
      set_solver.
    + apply lookup_lt_Some in Hu.
      destruct (refusal_free_at _ _ (k + 2)%nat Hfree ltac:(lia) Hr).
  - apply writeUsers_outcome.
  - intros Ha. destruct w as [R T Ss F L]. unfold answers in Ha. simpl in Ha, c.
    destruct (writeUsers_run us R T Ss F L)
      as [[H0 _]|[(j & err & _ & _ & _ & ->)|[_ ->]]].
    + destruct (refusal_free_at _ _ 0%nat Ha ltac:(lia) H0).
    + unfold issued; cbn [fst snd trace]. rewrite drop_app_length.
      apply last_cons_app_two.
    + unfold issued; cbn [fst snd trace]. rewrite drop_app_length.
      rewrite app_comm_cons. apply last_snoc.
Qed.

(** C7 (last occurrence wins).  For every batch whose transaction commits,
    duplicates or not: under every identifier of the batch the table holds
    the name, email and age of the last record of the batch with that
    identifier, whatever row was there before, and the rows of the other
    identifiers are untouched. *)
Theorem writeUsers_last_occurrence us w w' :
  writeUsers us w = (Returned tt, w') →
  ∀ i,
    table w' !! i
    = match last_with i us with
      | Some u => Some (row_of u)
      | None => table w !! i
      end
    ∧ (∀ u, last_with i us = Some u → user_of i <$> table w' !! i = Some u).
Proof.
  intros Hw i.
  destruct (writeUsers_outcome us w) as (_ & _ & Ht).
  rewrite Hw in Ht; simpl in Ht. rewrite Ht, foldl_upsert_lookup.
  split; [done|]. intros u Hu. rewrite Hu. simpl.
  apply last_with_id in Hu as <-. by destruct u.
Qed.

(** C3, as the route has it.  When the transaction of a write commits and
    the deletion of the users key is then refused, [POST] answers with the
    generic write failure and status 500; the rows of the batch stay
    committed and the cache is left as it was, snapshot included. *)
Theorem POST_reports_failed_invalidation b w w1 e w2 :
  writeUsers (normalize b) w = (Returned tt, w1) →
  redis_del USERS_CACHE_KEY w1 = (Thrown e, w2) →
  let run := POST {| payload := Some b |} w in
  run.1 = Returned write_failed
  ∧ status write_failed = 500%nat
  ∧ table run.2 = foldl (flip upsert) (table w) (normalize b)
  ∧ redis run.2 = redis w.
Proof.
  intros Hw Hd run. subst run.
  rewrite (POST_write_returned b w w1 Hw), Hd. simpl.
  apply redis_del_thrown in Hd as ->. simpl.
  destruct (writeUsers_outcome (normalize b) w) as (Hr & _ & Ht).
  rewrite Hw in Hr, Ht. by simpl in Hr, Ht.
Qed.

(** C4, as the route has it.  A body that cannot be parsed fails the write
    before any call to a service.  No other validation exists: for every
    parsed body, an empty array and a record with an empty identifier
    included, the first call of the write asks the pool for a client, and
    when all calls are served the batch is upserted as it is and reported
    with its length. *)
Theorem POST_validates_syntax_only w :
  ((POST {| payload := None |} w).1 = Returned write_failed
   ∧ calls (issued w (POST {| payload := None |} w).2) = [])
  ∧ ∀ b,
      let run := POST {| payload := Some b |} w in
      head (issued w run.2) = Some (Called PoolConnect)
      ∧ (answers (length (normalize b) + 4) w →
           run.1 = Returned (write_succeeded (length (normalize b)))
           ∧ table run.2 = foldl (flip upsert) (table w) (normalize b)).
Proof.
  split.
  - rewrite POST_unparseable. simpl. split; [done|].
    unfold issued; simpl. by rewrite drop_app_length.
  - intros b run. subst run. destruct w as [R T Ss F L].
    set (us := normalize b). unfold answers; simpl.
    destruct (writeUsers_run us R T Ss F L)
      as [[H0 Hw]|[(k & err & Hk & Hfree & Hr & Hw)|[Hfree Hw]]].
    + rewrite (POST_write_thrown b _ _ _ Hw). split.
      * unfold issued; simpl. by rewrite <- app_assoc, drop_app_length.
      * intros Ha. destruct (refusal_free_at _ _ 0%nat Ha ltac:(lia) H0).
    + rewrite (POST_write_thrown b _ _ _ Hw). split.
      * unfold issued; cbn [fst snd trace emit]. by rewrite <- app_assoc, drop_app_length.
      * intros Ha. destruct (refusal_free_at _ _ (S k) Ha ltac:(lia) Hr).
    + rewrite (POST_write_returned b _ _ Hw). split.
      * unfold redis_del.
        destruct (call_cases (A := unit) (RedisDel USERS_CACHE_KEY) (λ w, w)
          (λ w, (Returned tt, with_redis (delete USERS_CACHE_KEY (redis w)) w))
          (mkWorld R (foldl (flip upsert) T us) Ss (drop (length us + 3) F)
             (L ++ Called PoolConnect :: tx_calls (fresh (dom Ss)) us
                ++ [Called (ClientRelease (fresh (dom Ss)))])))
          as [[_ ->]|[_ ->]];
          unfold issued; cbn [fst snd trace emit served_world with_redis with_faults];
          by rewrite <- !app_assoc, drop_app_length.
      * intros Ha. unfold redis_del. rewrite call_served.
        { done. }
        simpl. rewrite lookup_drop.
        apply (refusal_free_at _ _ _ Ha). lia.
Qed.

(** C9 (count, normalization).  A single record and the array of that one
    record are the same input: [POST] behaves identically on both.  The body
    of every success response is [{ success: true, count }] with [count] the
    length of the normalized input, whatever identifiers repeat in it and
    whatever rows the store had: 1 for a single record, and for a batch in
    which every record has the same identifier still the number of
    records. *)
Theorem POST_counts_inputs :
  (∀ u w,
     POST {| payload := Some (One u) |} w
     = POST {| payload := Some (Many [u]) |} w)
  ∧ (∀ b w resp,
       (POST {| payload := Some b |} w).1 = Returned resp →
       status resp = 200%nat →
       resp = write_succeeded (length (normalize b))
       ∧ body resp
         = JObj [("success", JBool true);
                 ("count", JNum (Z.of_nat (length (normalize b))))])
  ∧ (∀ u w resp,
       (POST {| payload := Some (One u) |} w).1 = Returned resp →
       status resp = 200%nat →
       resp = write_succeeded 1
       ∧ body resp = JObj [("success", JBool true); ("count", JNum 1)])
  ∧ (∀ u n w resp,
       (POST {| payload := Some (Many (replicate n u)) |} w).1 = Returned resp →
       status resp = 200%nat →
       body resp
       = JObj [("success", JBool true); ("count", JNum (Z.of_nat n))]).
Proof.
  assert (∀ b w resp,
            (POST {| payload := Some b |} w).1 = Returned resp →
            status resp = 200%nat →
            resp = write_succeeded (length (normalize b))
            ∧ body resp
              = JObj [("success", JBool true);
                      ("count", JNum (Z.of_nat (length (normalize b))))])
    as Hcount.
  { intros b w resp Hres Hst.
    destruct (POST_outcome {| payload := Some b |} w)
      as [Hf|(b' & w1 & [= <-] & _ & Hp)].
    - rewrite Hf in Hres. injection Hres as <-. done.
    - rewrite Hp in Hres. by injection Hres as <-. }
  split; [done|]. split; [done|]. split.
  - intros u w resp. apply (Hcount (One u)).
  - intros u n w resp Hres Hst.
    destruct (Hcount (Many (replicate n u)) w resp Hres Hst) as [_ Hbody].
    simpl in Hbody. by rewrite length_replicate in Hbody.
Qed.

Section Invalidation.
Context `{JSONRuntime}.

(** C5 (invalidation).  After every write that [POST] reports as a success,
    the cache has no users key: a probe that is served returns [null]; and
    the next read whose calls are served puts a snapshot back. *)
Theorem POST_invalidates req w resp :
  (POST req w).1 = Returned resp →
  status resp = 200%nat →
  let w' := (POST req w).2 in
  redis w' !! USERS_CACHE_KEY = None
  ∧ (answers 1 w' → (redis_get USERS_CACHE_KEY w').1 = Returned None)
  ∧ (answers 3 w' → is_Some (redis (GET w').2 !! USERS_CACHE_KEY)).
Proof.
  intros Hres Hst w'. subst w'.
  destruct (POST_outcome req w) as [Hf|(b & w1 & _ & _ & Hp)].
  { rewrite Hf in Hres. injection Hres as <-. done. }
  rewrite Hp. cbn [fst snd].
  set (w' := with_redis _ _).
  assert (redis w' !! USERS_CACHE_KEY = None) as Hnone
    by apply lookup_delete_eq.
  split; [done|]. split.
  - intros Ha. destruct (answers_next _ _ (RedisGet USERS_CACHE_KEY) Ha) as [H0 _].
    unfold redis_get. rewrite call_served by done.
    cbn [fst]. unfold served_world; simpl. by rewrite lookup_delete_eq.
  - intros Ha. destruct (GET_miss w' Hnone Ha) as (_ & -> & _).
    rewrite lookup_insert_eq. by eexists.
Qed.
End Invalidation.

(** * Further properties of the route *)

(** ** More of the read path *)

Lemma refuses_next o w n : refuses (S n) w ↔ refuses n (served_world o w).
Proof.
  unfold refuses, served_world; simpl. by rewrite tail_drop, lookup_drop.
Qed.

Section ReadFailures.
Context `{JSONRuntime}.

(** X1.  The cache is asked first and its refusal is final: [GET] answers with
    the generic failure, and the store is not asked instead. *)
Theorem GET_cache_unavailable w :
  refuses 0 w →
  (GET w).1 = Returned fetch_failed
  ∧ calls (issued w (GET w).2) = [RedisGet USERS_CACHE_KEY]
  ∧ logged (issued w (GET w).2)
    = [("GET /users failed:", ServiceError (RedisGet USERS_CACHE_KEY))]
  ∧ redis (GET w).2 = redis w
  ∧ table (GET w).2 = table w.
Proof.
  intros Hr. unfold GET, try_catch, bind, redis_get.
  rewrite call_refused by done. simpl.
  unfold issued; simpl. by rewrite <- !app_assoc, drop_app_length.
Qed.

(** X2.  A snapshot that is not empty and does not parse fails the read: the
    store is not asked, the snapshot stays where it is, and the next read
    fails on it again. *)
Theorem GET_unparseable_snapshot w e :
  redis w !! USERS_CACHE_KEY = Some e →
  value e ≠ "" →
  JSON_parse (value e) = None →
  answers 2 w →
  (GET w).1 = Returned fetch_failed
  ∧ calls (issued w (GET w).2) = [RedisGet USERS_CACHE_KEY]
  ∧ logged (issued w (GET w).2) = [("GET /users failed:", SyntaxError)]
  ∧ redis (GET w).2 = redis w
  ∧ (GET (GET w).2).1 = Returned fetch_failed.
Proof.
  intros Hr Hne Hp Ha.
  destruct (answers_next _ _ (RedisGet USERS_CACHE_KEY) Ha) as [H0 Ha1].
  assert (GET w
          = (Returned fetch_failed,
             emit (ConsoleError "GET /users failed:" SyntaxError)
               (served_world (RedisGet USERS_CACHE_KEY) w))) as Hrun.
  { unfold GET, try_catch, bind, redis_get.
    rewrite call_served by done. simpl. rewrite Hr. simpl.
    destruct (value e) as [|a s] eqn:Hv; [done|].
    unfold JSON_parse_or_throw. by rewrite Hp. }
  rewrite Hrun. cbn [fst snd].
  split; [done|]. split; [|split; [|split; [done|]]].
  - unfold issued; simpl. by rewrite <- !app_assoc, drop_app_length.
  - unfold issued; simpl. by rewrite <- !app_assoc, drop_app_length.
  - set (w1 := emit _ _).
    destruct (answers_next _ _ (RedisGet USERS_CACHE_KEY) Ha1) as [H1 _].
    unfold GET, try_catch, bind, redis_get.
    rewrite call_served by done. simpl. rewrite Hr. simpl.
    destruct (value e) as [|a s] eqn:Hv; [done|].
    unfold JSON_parse_or_throw. by rewrite Hp.
Qed.

(** X3.  A miss whose query the store refuses fails the read and caches
    nothing. *)
Theorem GET_store_unavailable w :
  redis w !! USERS_CACHE_KEY = None →
  answers 1 w →
  refuses 1 w →
  (GET w).1 = Returned fetch_failed
  ∧ calls (issued w (GET w).2) = [RedisGet USERS_CACHE_KEY; PoolQuerySelect]
  ∧ logged (issued w (GET w).2)
    = [("GET /users failed:", ServiceError PoolQuerySelect)]
  ∧ redis (GET w).2 = redis w.
Proof.
  intros Hr Ha Hf.
  destruct (answers_next _ _ (RedisGet USERS_CACHE_KEY) Ha) as [H0 _].
  pose proof (proj1 (refuses_next (RedisGet USERS_CACHE_KEY) w 0) Hf) as Hf1.
  unfold GET, try_catch, bind, redis_get.
  rewrite call_served by done. simpl. rewrite Hr. simpl.
  unfold readUsers, bind, pool_query_select.
  rewrite call_refused by exact Hf1. simpl.
  unfold issued; simpl. by rewrite <- !app_assoc, drop_app_length.
Qed.

(** X4.  A miss whose rows were fetched but whose snapshot the cache refuses to
    store fails the read all the same: the rows are not returned, and the
    cache stays without the key. *)
Theorem GET_populate_refused w :
  redis w !! USERS_CACHE_KEY = None →
  answers 2 w →
  refuses 2 w →
  let text := JSON_stringify (users_json (select_users (table w))) in
  (GET w).1 = Returned fetch_failed
  ∧ calls (issued w (GET w).2)
    = [RedisGet USERS_CACHE_KEY; PoolQuerySelect;
       RedisSetEx USERS_CACHE_KEY text USERS_CACHE_TTL]
  ∧ redis (GET w).2 !! USERS_CACHE_KEY = None.
Proof.
  intros Hr Ha Hf text.
  destruct (answers_next _ _ (RedisGet USERS_CACHE_KEY) Ha) as [H0 Ha1].
  destruct (answers_next _ _ PoolQuerySelect Ha1) as [H1 _].
  pose proof (proj1 (refuses_next (RedisGet USERS_CACHE_KEY) w 1) Hf) as Hf1.
  pose proof (proj1 (refuses_next PoolQuerySelect _ 0) Hf1) as Hf2.
  unfold GET, try_catch, bind, redis_get.
  rewrite call_served by done. simpl. rewrite Hr. simpl.
  unfold readUsers, bind, pool_query_select.
  rewrite call_served by done. simpl.
  unfold redis_set_ex. rewrite call_refused by exact Hf2. simpl.
  split; [done|]. split; [|done].
  unfold issued; simpl. by rewrite <- !app_assoc, drop_app_length.
Qed.

(** X5.  An empty string under the users key counts as no snapshot: the store is
    queried and the entry is replaced by a fresh snapshot. *)
Theorem GET_empty_string_is_miss w e :
  redis w !! USERS_CACHE_KEY = Some e →
  value e = "" →
  answers 3 w →
  let R := select_users (table w) in
  (GET w).1 = Returned (NextResponse_json (users_json R) 200)
  ∧ redis (GET w).2 !! USERS_CACHE_KEY
    = Some {| value := JSON_stringify (users_json R); ttl := Some 60%nat |}
  ∧ PoolQuerySelect ∈ calls (issued w (GET w).2).
Proof.
  intros Hr Hv Ha R.
  destruct (answers_next _ _ (RedisGet USERS_CACHE_KEY) Ha) as [H0 Ha1].
  destruct (answers_next _ _ PoolQuerySelect Ha1) as [H1 Ha2].
  destruct (answers_next _ _
    (RedisSetEx USERS_CACHE_KEY (JSON_stringify (users_json R)) USERS_CACHE_TTL)
    Ha2) as [H2 _].
  unfold GET, try_catch, bind, redis_get.
  rewrite call_served by done. simpl. rewrite Hr. simpl. rewrite Hv.
  unfold readUsers, bind, pool_query_select.
  rewrite call_served by done. simpl.
  unfold redis_set_ex. rewrite call_served by done. simpl.
  split; [done|]. split; [by rewrite lookup_insert_eq|].
  unfold issued; simpl. rewrite <- !app_assoc, drop_app_length. simpl.
  set_solver.
Qed.

(** What every run of [GET] has in common, whatever the services do: the
    table and the checked-out clients are as before, the store is asked at
    most once and only to select, the answer is 200 or the generic failure,
    and a failure, and only a failure, is logged, once. *)
Lemma GET_effects w :
  table (GET w).2 = table w
  ∧ sessions (GET w).2 = sessions w
  ∧ (filter store_op (calls (issued w (GET w).2)) = []
     ∨ filter store_op (calls (issued w (GET w).2)) = [PoolQuerySelect])
  ∧ ((∃ resp, (GET w).1 = Returned resp ∧ status resp = 200%nat
              ∧ logged (issued w (GET w).2) = [])
     ∨ ((GET w).1 = Returned fetch_failed
        ∧ ∃ err, logged (issued w (GET w).2) = [("GET /users failed:", err)])).
Proof.
  unfold GET, try_catch, bind, redis_get.
  destruct (call_cases (A := option string) (RedisGet USERS_CACHE_KEY) (λ w, w)
              (λ w, (Returned (value <$> redis w !! USERS_CACHE_KEY), w)) w)
    as [[_ ->]|[_ ->]]; simpl.
  { unfold issued; simpl. rewrite <- !app_assoc, drop_app_length. simpl.
    repeat split; eauto. }
  set (w1 := served_world _ w).
  destruct (redis w !! USERS_CACHE_KEY) as [[[|a s] t]|]; simpl.
  2:{ unfold JSON_parse_or_throw.
      destruct (JSON_parse (String a s)); simpl;
        unfold issued; simpl; rewrite <- ?app_assoc, drop_app_length; simpl;
        repeat split; eauto. }
  all: unfold readUsers, bind, pool_query_select;
    destruct (call_cases (A := list User) PoolQuerySelect (λ w, w)
                (λ w, (Returned (select_users (table w)), w)) w1)
      as [[_ ->]|[_ ->]]; simpl;
    [unfold issued; simpl; rewrite <- !app_assoc, drop_app_length; simpl;
     repeat split; eauto|];
    unfold redis_set_ex;
    match goal with
    | |- context [call ?o ?r ?s ?w0] =>
        destruct (call_cases o r s w0) as [[_ ->]|[_ ->]]
    end; simpl;
    unfold issued; simpl; rewrite <- !app_assoc, drop_app_length; simpl;
    repeat split; eauto.
Qed.

(** X6.  The read path never writes to the store: in every run the committed
    table and the checked-out clients are what they were, and the only call
    the store can get is the one [SELECT]. *)
Theorem GET_read_only w :
  table (GET w).2 = table w
  ∧ sessions (GET w).2 = sessions w
  ∧ (filter store_op (calls (issued w (GET w).2)) = []
     ∨ filter store_op (calls (issued w (GET w).2)) = [PoolQuerySelect]).
Proof. destruct (GET_effects w) as (? & ? & ? & _). done. Qed.

(** X7.  [GET] has two outcomes and never throws: a 200, with nothing logged, or
    the generic failure with status 500, with the caught error logged once,
    server side, under ["GET /users failed:"]. *)
Theorem GET_two_outcomes w :
  (∃ resp, (GET w).1 = Returned resp ∧ status resp = 200%nat
           ∧ logged (issued w (GET w).2) = [])
  ∨ ((GET w).1 = Returned fetch_failed
     ∧ status fetch_failed = 500%nat
     ∧ ∃ err, logged (issued w (GET w).2) = [("GET /users failed:", err)]).
Proof.
  destruct (GET_effects w) as (_ & _ & _ & [?|[? ?]]); [by left|by right].
Qed.

(** X8.  Two reads in a row on a cache without the key, with a runtime that reads
    back the snapshot it wrote: the second read answers what the first
    answered, and the store has been queried once. *)
Theorem GET_twice_queries_once w :
  redis w !! USERS_CACHE_KEY = None →
  answers 4 w →
  let R := select_users (table w) in
  let text := JSON_stringify (users_json R) in
  JSON_parse text = Some (users_json R) →
  let w1 := (GET w).2 in
  (GET w1).1 = (GET w).1
  ∧ (GET w).1 = Returned (NextResponse_json (users_json R) 200)
  ∧ calls (issued w (GET w1).2)
    = [RedisGet USERS_CACHE_KEY; PoolQuerySelect;
       RedisSetEx USERS_CACHE_KEY text USERS_CACHE_TTL;
       RedisGet USERS_CACHE_KEY].
Proof.
  intros Hr Ha R text Hp w1.
  assert (answers 3 w) as Ha3 by (by apply (refusal_free_le 4); [lia|]).
  destruct (GET_miss w Hr Ha3) as (Hres & Hc & _ & Hiss).
  fold R text w1 in Hres, Hc, Hiss.
  assert (trace w1 = trace w ++ [Called (RedisGet USERS_CACHE_KEY);
            Called PoolQuerySelect;
            Called (RedisSetEx USERS_CACHE_KEY text USERS_CACHE_TTL)]) as Htr.
  { subst w1. revert Hiss. unfold R, text, GET, try_catch, bind, redis_get.
    destruct (answers_next _ _ (RedisGet USERS_CACHE_KEY) Ha3) as [H0 Ha1].
    destruct (answers_next _ _ PoolQuerySelect Ha1) as [H1 Ha2].
    destruct (answers_next _ _
      (RedisSetEx USERS_CACHE_KEY text USERS_CACHE_TTL) Ha2) as [H2 _].
    rewrite call_served by done. simpl. rewrite Hr. simpl.
    unfold readUsers, bind, pool_query_select.
    rewrite call_served by done. simpl.
    unfold redis_set_ex. rewrite call_served by done. simpl.
    intros _. by rewrite <- !app_assoc. }
  assert (faults w1 = drop 3 (faults w)) as Hf.
  { subst w1. unfold GET, try_catch, bind, redis_get.
    destruct (answers_next _ _ (RedisGet USERS_CACHE_KEY) Ha3) as [H0 Ha1].
    destruct (answers_next _ _ PoolQuerySelect Ha1) as [H1 Ha2].
    destruct (answers_next _ _
      (RedisSetEx USERS_CACHE_KEY text USERS_CACHE_TTL) Ha2) as [H2 _].
    rewrite call_served by done. simpl. rewrite Hr. simpl.
    unfold readUsers, bind, pool_query_select.
    rewrite call_served by done. simpl.
    unfold redis_set_ex. rewrite call_served by done. simpl.
    rewrite !tail_drop, !drop_drop. done. }
  assert (answers 1 w1) as Ha1.
  { unfold answers. rewrite Hf. by apply (refusal_free_drop 3). }
  assert (redis w1 !! USERS_CACHE_KEY
          = Some {| value := text; ttl := Some USERS_CACHE_TTL |}) as Hl
    by (rewrite Hc; apply lookup_insert_eq).
  rewrite (GET_hit w1 _ (users_json R) Hl Hp Ha1). cbn [fst snd].
  split; [done|]. split; [done|].
  unfold issued, served_world; simpl. rewrite Htr.
  rewrite <- app_assoc, drop_app_length. done.
Qed.
End ReadFailures.

(** ** More of the write path *)

Lemma calls_app es es' : calls (es ++ es') = calls es ++ calls es'.
Proof. unfold calls. apply omap_app. Qed.

Lemma calls_Called (os : list Op) : calls (Called <$> os) = os.
Proof. induction os as [|o os IH]; [done|]. simpl. f_equal. exact IH. Qed.

Lemma logged_Called (os : list Op) : logged (Called <$> os) = [].
Proof. by induction os. Qed.

Lemma logged_app es es' : logged (es ++ es') = logged es ++ logged es'.
Proof. unfold logged. apply omap_app. Qed.

Lemma tx_calls_statements c us :
  tx_calls c us = Called <$> (ClientQuery c <$> tx_statements us).
Proof.
  unfold tx_calls, tx_statements, upsert_calls. simpl. f_equal.
  rewrite !fmap_app. simpl. f_equal.
  by rewrite <- !list_fmap_compose.
Qed.

Lemma take_tx_calls c us n :
  take n (tx_calls c us)
  = Called <$> (ClientQuery c <$> take n (tx_statements us)).
Proof. by rewrite tx_calls_statements, !fmap_take. Qed.

Section MoreSteps.
Implicit Types (R : gmap string Entry) (T t : gmap string Row)
  (Ss : gmap nat TxState) (F : list bool) (L : list Event).

Lemma rollback_served c st R T Ss F L :
  F !! 0%nat ≠ Some true →
  client_query c Rollback (mkWorld R T (<[c := st]> Ss) F L)
  = (Returned tt,
     mkWorld R T (<[c := Idle]> Ss) (drop 1 F)
       (L ++ [Called (ClientQuery c Rollback)])).
Proof.
  intros HF. unfold client_query. rewrite call_served_at by done.
  unfold execute; simpl. rewrite lookup_insert_eq.
  destruct st; unfold with_sessions; simpl; by rewrite insert_insert_eq.
Qed.

(** The statement that is refused is the one whose error leaves the [try]
    block. *)
Lemma transaction_failed_with c us k stmt R T Ss F L :
  tx_statements us !! k = Some stmt →
  refusal_free k F →
  F !! k = Some true →
  ∃ st,
    (client_query c Begin ;;;
     for_of us (λ user, client_query c (Upsert user)) ;;;
     client_query c Commit) (mkWorld R T (<[c := Idle]> Ss) F L)
    = (Thrown (ServiceError (ClientQuery c stmt)),
       mkWorld R T (<[c := st]> Ss) (drop (S k) F)
         (L ++ take (S k) (tx_calls c us))).
Proof.
  intros Hs HF Hr. unfold bind.
  destruct k as [|k].
  { injection Hs as <-.
    destruct (statement_refused c Begin Idle R T Ss F L Hr) as [st ->].
    exists st. unfold tx_calls. simpl. by rewrite take_0. }
  unfold tx_statements in Hs. simpl in Hs.
  rewrite begin_served by (apply (refusal_free_at _ _ _ HF); lia).
  destruct (decide (k < length us)%nat) as [Hlt|Hge].
  - destruct (lookup_lt_is_Some_2 us k Hlt) as [u Hu].
    rewrite lookup_app_l in Hs by (rewrite length_fmap; lia).
    rewrite list_lookup_fmap, Hu in Hs. injection Hs as <-.
    destruct (upserts_refused c us k u T R T Ss (drop 1 F)
                (L ++ [Called (ClientQuery c Begin)]) Hu) as [st ->].
    + apply (refusal_free_drop 1), HF.
    + by rewrite lookup_drop.
    + exists st.
      rewrite drop_drop, <- app_assoc. unfold tx_calls, upsert_calls. simpl.
      rewrite take_app_le by (rewrite length_fmap; lia).
      by rewrite fmap_take.
  - rewrite lookup_app_r in Hs by (rewrite length_fmap; lia).
    rewrite length_fmap in Hs.
    destruct (k - length us)%nat as [|d] eqn:Hd; [|by destruct d].
    injection Hs as <-.
    assert (k = length us) as ->.
    { apply lookup_lt_Some in Hr. apply Nat.le_antisymm; lia. }
    rewrite upserts_served by (apply (refusal_free_drop 1), HF).
    destruct (statement_refused c Commit (Active (foldl (flip upsert) T us)) R T Ss
                (drop (length us) (drop 1 F))
                (L ++ [Called (ClientQuery c Begin)] ++ upsert_calls c us))
      as [st Hst].
    { rewrite drop_drop, lookup_drop, <- Hr. f_equal. lia. }
    rewrite app_assoc in Hst. rewrite Hst.
    exists st.
    rewrite !drop_drop, <- !app_assoc. unfold tx_calls. simpl.
    rewrite take_ge
      by (unfold upsert_calls; simpl; rewrite length_app, length_fmap; simpl; lia).
    same_world.
Qed.

(** A run of [writeUsers] in which the statement with index [k] of the
    transaction is the first call to be refused. *)
Lemma writeUsers_failed_with us k stmt R T Ss F L :
  let c := fresh (dom Ss) in
  tx_statements us !! k = Some stmt →
  refusal_free (S k) F →
  F !! S k = Some true →
  writeUsers us (mkWorld R T Ss F L)
  = (Thrown (ServiceError (ClientQuery c
       (if decide (F !! S (S k) = Some true) then Rollback else stmt))),
     mkWorld R T Ss (drop (k + 3) F)
       (L ++ Called PoolConnect :: take (S k) (tx_calls c us)
          ++ [Called (ClientQuery c Rollback); Called (ClientRelease c)])).
Proof.
  intros c Hs HF Hr.
  unfold writeUsers. unfold bind at 1.
  rewrite connect_served by (apply (refusal_free_at _ _ _ HF); lia). fold c.
  unfold try_finally, try_catch.
  destruct (transaction_failed_with c us k stmt R T Ss (drop 1 F)
              (L ++ [Called PoolConnect]) Hs) as (st & ->).
  { apply (refusal_free_drop 1), HF. }
  { by rewrite lookup_drop. }
  unfold bind.
  destruct (decide (F !! S (S k) = Some true)) as [Hrb|Hrb].
  - destruct (statement_refused c Rollback st R T Ss (drop (S k) (drop 1 F))
                ((L ++ [Called PoolConnect]) ++ take (S k) (tx_calls c us)))
      as [st' ->].
    { rewrite drop_drop, lookup_drop, <- Hrb. f_equal. lia. }
    rewrite release_at by apply fresh_session.
    rewrite !drop_drop, <- !app_assoc. same_world.
  - rewrite rollback_served.
    2:{ rewrite drop_drop, lookup_drop. intros Hx. apply Hrb. rewrite <- Hx.
        f_equal. lia. }
    unfold throw. rewrite release_at by apply fresh_session.
    rewrite !drop_drop, <- !app_assoc. same_world.
Qed.
End MoreSteps.

Lemma tx_statements_length us : length (tx_statements us) = (length us + 2)%nat.
Proof.
  unfold tx_statements. simpl. rewrite length_app, length_fmap. simpl. lia.
Qed.

(** X9.  When every call is served, [writeUsers] issues, on one client: the
    connection, [BEGIN], one upsert per record in the order of the input,
    [COMMIT] and the release; nothing else, and nothing twice. *)
Theorem writeUsers_commits_in_order us w :
  answers (length us + 3) w →
  let c := fresh (dom (sessions w)) in
  (writeUsers us w).1 = Returned tt
  ∧ calls (issued w (writeUsers us w).2)
    = PoolConnect
        :: (ClientQuery c <$> (Begin :: (Upsert <$> us) ++ [Commit]))
        ++ [ClientRelease c].
Proof.
  intros Ha c. destruct w as [R T Ss F L]. unfold answers in Ha.
  simpl in Ha, c.
  destruct (writeUsers_run us R T Ss F L)
    as [[H0 _]|[(k & err & Hk & _ & Hr & _)|[_ ->]]].
  - destruct (refusal_free_at _ _ 0%nat Ha ltac:(lia) H0).
  - destruct (refusal_free_at _ _ (S k) Ha ltac:(lia) Hr).
  - split; [done|]. unfold issued; cbn [fst snd trace].
    rewrite drop_app_length, tx_calls_statements.
    change (Called PoolConnect :: ?l ++ [Called ?o])
      with ((Called <$> [PoolConnect]) ++ l ++ (Called <$> [o])).
    rewrite !calls_app, !calls_Called. done.
Qed.

(** X10.  The first refused statement of the transaction, be it [BEGIN], an
    upsert or [COMMIT], ends the transaction: the statements after it are
    never issued, [ROLLBACK] and the release follow, [writeUsers] throws,
    and the committed table is as before. *)
Theorem writeUsers_unwinds us w k :
  (k < length us + 2)%nat →
  answers (S k) w →
  refuses (S k) w →
  let c := fresh (dom (sessions w)) in
  let run := writeUsers us w in
  (∃ err, run.1 = Thrown err)
  ∧ calls (issued w run.2)
    = PoolConnect
        :: (ClientQuery c <$> take (S k) (Begin :: (Upsert <$> us) ++ [Commit]))
        ++ [ClientQuery c Rollback; ClientRelease c]
  ∧ table run.2 = table w
  ∧ sessions run.2 = sessions w.
Proof.
  intros Hk Ha Hr c run. subst run.
  destruct w as [R T Ss F L]. unfold answers, refuses in Ha, Hr.
  simpl in Ha, Hr, c.
  destruct (lookup_lt_is_Some_2 (tx_statements us) k) as [stmt Hs].
  { rewrite tx_statements_length. lia. }
  rewrite (writeUsers_failed_with us k stmt R T Ss F L Hs Ha Hr). fold c.
  cbn [fst snd table sessions].
  split; [by eexists|]. split; [|done].
  unfold issued; cbn [trace]. rewrite drop_app_length, take_tx_calls.
  change (Called PoolConnect :: ?l ++ [Called ?o; Called ?o'])
    with ((Called <$> [PoolConnect]) ++ l ++ (Called <$> [o; o'])).
  rewrite !calls_app, !calls_Called. done.
Qed.

(** X11.  The error that reaches the caller of [writeUsers] is that of the refused
    statement when [ROLLBACK] is served, and that of [ROLLBACK] when it is
    refused too: the original error is then lost. *)
Theorem writeUsers_rethrows us w k stmt :
  (Begin :: (Upsert <$> us) ++ [Commit]) !! k = Some stmt →
  answers (S k) w →
  refuses (S k) w →
  let c := fresh (dom (sessions w)) in
  (¬ refuses (S (S k)) w →
     (writeUsers us w).1 = Thrown (ServiceError (ClientQuery c stmt)))
  ∧ (refuses (S (S k)) w →
       (writeUsers us w).1 = Thrown (ServiceError (ClientQuery c Rollback))).
Proof.
  intros Hs Ha Hr c. destruct w as [R T Ss F L].
  unfold answers, refuses in *. simpl in Ha, Hr, c |- *.
  rewrite (writeUsers_failed_with us k stmt R T Ss F L Hs Ha Hr). fold c.
  cbn [fst]. split; intros Hrb.
  - by rewrite decide_False.
  - by rewrite decide_True.
Qed.

(** X12.  Without a client there is no transaction: when the pool refuses the
    connection, [writeUsers] throws that error, no statement is sent, no
    release is attempted, and nothing has changed. *)
Theorem writeUsers_without_client us w :
  refuses 0 w →
  let run := writeUsers us w in
  run.1 = Thrown (ServiceError PoolConnect)
  ∧ calls (issued w run.2) = [PoolConnect]
  ∧ table run.2 = table w
  ∧ sessions run.2 = sessions w
  ∧ redis run.2 = redis w.
Proof.
  intros Hr run. subst run. unfold writeUsers, bind, pool_connect.
  rewrite call_refused by done. simpl.
  unfold issued; simpl. by rewrite drop_app_length.
Qed.

(** *** What a committed batch does to the table *)

Lemma foldl_upsert_dom us : ∀ (t : gmap string Row),
  dom (foldl (flip upsert) t us) = dom t ∪ list_to_set (id <$> us).
Proof.
  induction us as [|u us IH]; intros t; simpl.
  - by rewrite (right_id_L ∅ (∪)).
  - rewrite IH. unfold flip, upsert. rewrite dom_insert_L.
    by rewrite (comm_L (∪) {[id u]} (dom t)), <- (assoc_L (∪)).
Qed.

Lemma foldl_upsert_twice us (t : gmap string Row) :
  foldl (flip upsert) (foldl (flip upsert) t us) us = foldl (flip upsert) t us.
Proof.
  apply map_eq. intros i. rewrite foldl_upsert_lookup.
  destruct (last_with i us) eqn:Hl; [|done].
  by rewrite foldl_upsert_lookup, Hl.
Qed.

(** With distinct identifiers at most one record carries a given one. *)
Lemma filter_id_short i us :
  NoDup (id <$> us) →
  filter (λ u, id u = i) us = []
  ∨ ∃ u, filter (λ u, id u = i) us = [u].
Proof.
  intros Hnd.
  assert (NoDup (id <$> filter (λ u, id u = i) us)) as Hnd'.
  { eapply sublist_NoDup; [exact Hnd|]. apply fmap_sublist, sublist_filter. }
  destruct (filter (λ u, id u = i) us) as [|a [|b l]] eqn:Hf; eauto.
  assert (a ∈ filter (λ u, id u = i) us) as Ha by (rewrite Hf; set_solver).
  assert (b ∈ filter (λ u, id u = i) us) as Hb by (rewrite Hf; set_solver).
  apply list_elem_of_filter in Ha as [Ha _].
  apply list_elem_of_filter in Hb as [Hb _].
  simpl in Hnd'. apply NoDup_cons in Hnd' as [Hnin _].
  destruct Hnin. rewrite Ha, <- Hb. set_solver.
Qed.

Lemma last_with_permutation i us us' :
  us ≡ₚ us' → NoDup (id <$> us) → last_with i us = last_with i us'.
Proof.
  intros Hp Hnd. unfold last_with.
  assert (filter (λ u, id u = i) us ≡ₚ filter (λ u, id u = i) us') as Hf
    by (by rewrite Hp).
  destruct (filter_id_short i us Hnd) as [Hnil|[u Hu]].
  - rewrite Hnil in Hf |- *. apply Permutation_nil_l in Hf. by rewrite <- Hf.
  - rewrite Hu in Hf |- *. apply Permutation_singleton_l in Hf. by rewrite <- Hf.
Qed.

Lemma foldl_upsert_permutation us us' (t : gmap string Row) :
  us ≡ₚ us' → NoDup (id <$> us) →
  foldl (flip upsert) t us = foldl (flip upsert) t us'.
Proof.
  intros Hp Hnd. apply map_eq. intros i.
  by rewrite !foldl_upsert_lookup, (last_with_permutation i us us').
Qed.

Lemma writeUsers_returned_table us w w' :
  writeUsers us w = (Returned tt, w') →
  table w' = foldl (flip upsert) (table w) us.
Proof.
  intros Hw. destruct (writeUsers_outcome us w) as (_ & _ & Ht).
  by rewrite Hw in Ht.
Qed.

(** X13.  For a batch with pairwise distinct identifiers the order of the records
    does not matter: every reordering of the batch commits the same
    table. *)
Theorem writeUsers_order_independent us us' w w1 w2 :
  us ≡ₚ us' →
  NoDup (id <$> us) →
  writeUsers us w = (Returned tt, w1) →
  writeUsers us' w = (Returned tt, w2) →
  table w1 = table w2.
Proof.
  intros Hp Hnd Hw1 Hw2.
  rewrite (writeUsers_returned_table _ _ _ Hw1),
    (writeUsers_returned_table _ _ _ Hw2).
  by apply foldl_upsert_permutation.
Qed.

(** X14.  Writing is idempotent: a batch that is committed a second time leaves
    the table as the first commit left it. *)
Theorem writeUsers_idempotent us w w1 w2 :
  writeUsers us w = (Returned tt, w1) →
  writeUsers us w1 = (Returned tt, w2) →
  table w2 = table w1.
Proof.
  intros Hw1 Hw2.
  rewrite (writeUsers_returned_table _ _ _ Hw2),
    (writeUsers_returned_table _ _ _ Hw1).
  apply foldl_upsert_twice.
Qed.

(** X15.  [writeUsers] only adds and overwrites: no run removes a row, and a
    committed batch leaves exactly the identifiers that were there and those
    of the batch. *)
Theorem writeUsers_never_deletes us w :
  let run := writeUsers us w in
  dom (table w) ⊆ dom (table run.2)
  ∧ (run.1 = Returned tt →
       dom (table run.2) = dom (table w) ∪ list_to_set (id <$> us)).
Proof.
  intros run. subst run.
  destruct (writeUsers_outcome us w) as (_ & _ & Ht).
  destruct (writeUsers us w) as [[[]|err] w']; simpl in *.
  - rewrite Ht, foldl_upsert_dom. split; [set_solver|done].
  - rewrite Ht. split; [done|]. intros [=].
Qed.

(** ** More of [POST] *)

(** The events of every run of [writeUsers] are calls to the store. *)
Lemma writeUsers_issued us w :
  ∃ os,
    issued w (writeUsers us w).2 = Called <$> os
    ∧ Forall (λ o, store_op o = true) os.
Proof.
  destruct w as [R T Ss F L].
  assert (∀ c n, Forall (λ o, store_op o = true)
                   (ClientQuery c <$> take n (tx_statements us))) as Htx.
  { intros c n. apply Forall_fmap, Forall_true. done. }
  destruct (writeUsers_run us R T Ss F L)
    as [[_ ->]|[(k & err & _ & _ & _ & ->)|[_ ->]]];
    unfold issued; cbn [fst snd trace]; rewrite drop_app_length.
  - exists [PoolConnect]. split; [done|]. by repeat constructor.
  - rewrite take_tx_calls.
    exists (PoolConnect
              :: (ClientQuery (fresh (dom Ss)) <$> take (S k) (tx_statements us))
              ++ [ClientQuery (fresh (dom Ss)) Rollback;
                  ClientRelease (fresh (dom Ss))]).
    split; [by rewrite fmap_cons, fmap_app|].
    constructor; [done|]. apply Forall_app. split; [apply Htx|].
    by repeat constructor.
  - rewrite tx_calls_statements.
    exists (PoolConnect
              :: (ClientQuery (fresh (dom Ss)) <$> tx_statements us)
              ++ [ClientRelease (fresh (dom Ss))]).
    split; [by rewrite fmap_cons, fmap_app|].
    constructor; [done|]. apply Forall_app. split.
    + rewrite <- (take_ge (tx_statements us) (length (tx_statements us))) by done.
      apply Htx.
    + by repeat constructor.
Qed.

Lemma issued_trans w w1 w2 es1 es2 :
  issued w w1 = es1 → trace w1 = trace w ++ es1 →
  trace w2 = trace w1 ++ es2 → issued w w2 = es1 ++ es2.
Proof.
  intros _ H1 H2. unfold issued. by rewrite H2, H1, <- app_assoc, drop_app_length.
Qed.

Lemma writeUsers_trace us w :
  trace (writeUsers us w).2 = trace w ++ issued w (writeUsers us w).2.
Proof.
  destruct w as [R T Ss F L].
  destruct (writeUsers_run us R T Ss F L)
    as [[_ ->]|[(k & err & _ & _ & _ & ->)|[_ ->]]];
    unfold issued; cbn [fst snd trace]; by rewrite drop_app_length.
Qed.

(** Everything a run of [POST] on a parsed body has in common. *)
Lemma POST_effects b w :
  let run := POST {| payload := Some b |} w in
  let us := normalize b in
  sessions run.2 = sessions w
  ∧ ((run.1 = Returned (write_succeeded (length us))
      ∧ (writeUsers us w).1 = Returned tt
      ∧ issued w run.2
        = issued w (writeUsers us w).2 ++ [Called (RedisDel USERS_CACHE_KEY)]
      ∧ redis run.2 = delete USERS_CACHE_KEY (redis w)
      ∧ table run.2 = table (writeUsers us w).2)
     ∨ (run.1 = Returned write_failed
        ∧ redis run.2 = redis w
        ∧ ∃ err,
            (issued w run.2
             = issued w (writeUsers us w).2
               ++ [ConsoleError "POST /users failed:" err]
             ∧ (writeUsers us w).1 = Thrown err)
            ∨ (issued w run.2
               = issued w (writeUsers us w).2
                 ++ [Called (RedisDel USERS_CACHE_KEY);
                     ConsoleError "POST /users failed:" err]
               ∧ (writeUsers us w).1 = Returned tt))).
Proof.
  intros run us. subst run.
  destruct (writeUsers_outcome us w) as (Hred & Hses & _).
  pose proof (writeUsers_trace us w) as Htr.
  destruct (writeUsers us w) as [[[]|err] w1] eqn:Hw; cbn [fst snd] in *.
  - rewrite (POST_write_returned b w w1 Hw). unfold redis_del.
    destruct (call_cases (A := unit) (RedisDel USERS_CACHE_KEY) (λ w, w)
                (λ w, (Returned tt, with_redis (delete USERS_CACHE_KEY (redis w)) w))
                w1) as [[_ ->]|[_ ->]]; cbn [fst snd].
    + split; [done|]. right. split; [done|]. split; [done|].
      exists (ServiceError (RedisDel USERS_CACHE_KEY)). right. split; [|done].
      unfold issued at 1; simpl. rewrite Htr, <- !app_assoc, drop_app_length.
      done.
    + split; [done|]. left. split; [done|]. split; [done|]. split.
      * unfold issued at 1; simpl. by rewrite Htr, <- !app_assoc, drop_app_length.
      * simpl. by rewrite Hred.
  - rewrite (POST_write_thrown b w err w1 Hw). cbn [fst snd].
    split; [done|]. right. split; [done|]. split; [done|].
    exists err. left. split; [|done].
    unfold issued at 1; simpl. by rewrite Htr, <- !app_assoc, drop_app_length.
Qed.

(** X16.  A write that fails never touches the cache: whenever [POST] answers with
    the failure, the cache is as it was, and when it is the store that
    failed no call at all is made to the cache. *)
Theorem POST_failure_keeps_cache req w :
  (POST req w).1 = Returned write_failed →
  redis (POST req w).2 = redis w
  ∧ (∀ b err,
       payload req = Some b →
       (writeUsers (normalize b) w).1 = Thrown err →
       filter (λ o, store_op o = false) (calls (issued w (POST req w).2)) = []).
Proof.
  intros Hres. destruct req as [[b|]].
  - destruct (POST_effects b w) as (_ & [(Hok & _)|(_ & Hred & err & Hiss)]).
    { rewrite Hok in Hres. discriminate Hres. }
    split; [done|]. intros b' err' [= <-] Hthrown.
    destruct Hiss as [[Hiss _]|[_ Hret]]; [|congruence].
    rewrite Hiss.
    destruct (writeUsers_issued (normalize b) w) as (os & -> & Hos).
    rewrite calls_app, calls_Called, filter_app. simpl.
    rewrite app_nil_r. induction Hos as [|o os Ho _ IH]; [done|].
    rewrite filter_cons, decide_False by congruence. done.
  - rewrite POST_unparseable. simpl. split; [done|]. intros b err [=].
Qed.

(** X17.  [POST] has two outcomes and never throws: the success payload with
    status 200, with nothing logged, or the generic failure with status 500,
    with the caught error logged once under ["POST /users failed:"]; and no
    client stays checked out in either. *)
Theorem POST_two_outcomes req w :
  sessions (POST req w).2 = sessions w
  ∧ ((∃ n, (POST req w).1 = Returned (write_succeeded n)
           ∧ status (write_succeeded n) = 200%nat
           ∧ logged (issued w (POST req w).2) = [])
     ∨ ((POST req w).1 = Returned write_failed
        ∧ status write_failed = 500%nat
        ∧ ∃ err,
            logged (issued w (POST req w).2) = [("POST /users failed:", err)])).
Proof.
  destruct req as [[b|]].
  - destruct (POST_effects b w)
      as (Hses & [(Hok & _ & Hiss & _)|(Hko & _ & err & Hiss)]).
    + split; [done|]. left. eexists. split; [done|]. split; [done|].
      rewrite Hiss. destruct (writeUsers_issued (normalize b) w) as (os & -> & _).
      by rewrite logged_app, logged_Called.
    + split; [done|]. right. split; [done|]. split; [done|]. exists err.
      destruct (writeUsers_issued (normalize b) w) as (os & Hos & _).
      destruct Hiss as [[-> _]|[-> _]]; rewrite Hos;
        by rewrite logged_app, logged_Called.
  - rewrite POST_unparseable. simpl. split; [done|]. right.
    split; [done|]. split; [done|]. exists SyntaxError.
    unfold issued; simpl. by rewrite drop_app_length.
Qed.

(** X18.  A write that is reported as a success has issued, in this order: the
    connection, [BEGIN], the upserts in input order, [COMMIT], the release,
    and last the deletion of the users key: the cache is invalidated only
    after the commit, and on a client-free handler. *)
Theorem POST_success_call_order b w resp :
  (POST {| payload := Some b |} w).1 = Returned resp →
  status resp = 200%nat →
  let c := fresh (dom (sessions w)) in
  calls (issued w (POST {| payload := Some b |} w).2)
  = PoolConnect
      :: (ClientQuery c <$> (Begin :: (Upsert <$> normalize b) ++ [Commit]))
      ++ [ClientRelease c; RedisDel USERS_CACHE_KEY].
Proof.
  intros Hres Hst c.
  destruct (POST_effects b w) as (_ & [(_ & Hret & Hiss & _)|(Hko & _)]).
  2:{ rewrite Hko in Hres. injection Hres as <-. done. }
  rewrite Hiss, calls_app. simpl.
  destruct w as [R T Ss F L]. simpl in c.
  destruct (writeUsers_run (normalize b) R T Ss F L)
    as [[_ Hw]|[(k & err & _ & _ & _ & Hw)|[_ Hw]]];
    rewrite Hw in Hret |- *; try discriminate Hret.
  unfold issued; cbn [fst snd trace].
  rewrite drop_app_length, tx_calls_statements. fold c.
  change (Called PoolConnect :: ?l ++ [Called ?o])
    with ((Called <$> [PoolConnect]) ++ l ++ (Called <$> [o])).
  rewrite !calls_app, !calls_Called. simpl. by rewrite <- app_assoc.
Qed.

(** ** Reads after writes *)

Lemma elem_of_select_users u (t : gmap string Row) :
  u ∈ select_users t ↔ t !! id u = Some (row_of u).
Proof.
  unfold select_users. rewrite list_elem_of_fmap. split.
  - intros ([i r] & -> & Hin). apply elem_of_map_to_list in Hin.
    simpl. by destruct r.
  - intros Hl. exists (id u, row_of u). split; [by destruct u|].
    by apply elem_of_map_to_list.
Qed.

Lemma select_users_ids (t : gmap string Row) :
  id <$> select_users t = (map_to_list t).*1.
Proof.
  unfold select_users. rewrite <- list_fmap_compose.
  apply list_fmap_ext. by intros _ [i r] _.
Qed.

Section ReadAfterWrite.
Context `{JSONRuntime}.

(** X19.  Read your writes: the first read after a write that was reported as a
    success goes to the store and answers the table of the commit; in it
    every identifier occurs once, and each record of the batch that is the
    last with its identifier is there as it was sent. *)
Theorem POST_read_your_writes b w resp :
  (POST {| payload := Some b |} w).1 = Returned resp →
  status resp = 200%nat →
  let w' := (POST {| payload := Some b |} w).2 in
  answers 3 w' →
  ∃ rows,
    (GET w').1 = Returned (NextResponse_json (users_json rows) 200)
    ∧ rows = select_users (foldl (flip upsert) (table w) (normalize b))
    ∧ NoDup (id <$> rows)
    ∧ (∀ u, last_with (id u) (normalize b) = Some u → u ∈ rows)
    ∧ PoolQuerySelect ∈ calls (issued w' (GET w').2).
Proof.
  intros Hres Hst w' Ha. subst w'.
  destruct (POST_effects b w) as (_ & [(_ & Hret & _ & Hred & Ht)|(Hko & _)]).
  2:{ rewrite Hko in Hres. injection Hres as <-. done. }
  set (w' := (POST {| payload := Some b |} w).2) in *.
  assert (table w' = foldl (flip upsert) (table w) (normalize b)) as Ht'.
  { rewrite Ht. destruct (writeUsers_outcome (normalize b) w) as (_ & _ & Hf).
    by rewrite Hret in Hf. }
  assert (redis w' !! USERS_CACHE_KEY = None) as Hnone
    by (rewrite Hred; apply lookup_delete_eq).
  destruct (GET_miss w' Hnone Ha) as (Hget & _ & _ & Hiss).
  exists (select_users (table w')).
  split; [done|]. split; [by rewrite Ht'|]. split; [|split].
  - rewrite select_users_ids. apply NoDup_fst_map_to_list.
  - intros u Hu. apply elem_of_select_users.
    by rewrite Ht', foldl_upsert_lookup, Hu.
  - rewrite Hiss. simpl. set_solver.
Qed.

(** X20.  The price of a refused invalidation: the batch is committed, the old
    snapshot is still in the cache, and the next read answers that old
    snapshot without asking the store. *)
Theorem POST_failed_invalidation_serves_stale b w w1 err w2 e v :
  redis w !! USERS_CACHE_KEY = Some e →
  JSON_parse (value e) = Some v →
  writeUsers (normalize b) w = (Returned tt, w1) →
  redis_del USERS_CACHE_KEY w1 = (Thrown err, w2) →
  let w' := (POST {| payload := Some b |} w).2 in
  answers 1 w' →
  table w' = foldl (flip upsert) (table w) (normalize b)
  ∧ (GET w').1 = Returned (NextResponse_json v 200)
  ∧ calls (issued w' (GET w').2) = [RedisGet USERS_CACHE_KEY].
Proof.
  intros Hr Hp Hw Hd w' Ha.
  assert (redis w' = redis w ∧ table w' = table w1) as [Hred Ht].
  { subst w'. rewrite (POST_write_returned b w w1 Hw), Hd. simpl.
    apply redis_del_thrown in Hd as ->. simpl.
    destruct (writeUsers_outcome (normalize b) w) as (Hr1 & _).
    rewrite Hw in Hr1. done. }
  split; [by rewrite Ht, (writeUsers_returned_table _ _ _ Hw)|].
  rewrite <- Hred in Hr.
  rewrite (GET_hit w' e v Hr Hp Ha). cbn [fst snd]. split; [done|].
  unfold issued, served_world; simpl. by rewrite drop_app_length.
Qed.
End ReadAfterWrite.

(** ** The set-up route *)

Lemma setup_run_statement_users (rels : gmap string Setup.Relation) :
  is_Some
    (Setup.run_statement
       (Setup.CreateTableIfNotExists "users" Setup.users_columns) rels
     !! "users").
Proof.
  unfold Setup.run_statement.
  destruct (rels !! "users") as [r|] eqn:Hr; [by rewrite Hr|].
  rewrite lookup_insert_eq. by eexists.
Qed.

(** Every run of the handler, by the first call that is refused. *)
Lemma setup_GET_run w :
  let create := Setup.CreateTableIfNotExists "users" Setup.users_columns in
  let failure (o : Setup.Op) :=
    Setup.ConsoleError "Database error:" (Setup.ServiceError o) in
  (Setup.answers 3 w
   ∧ Setup.GET w
     = (Setup.Returned Setup.table_ensured,
        Setup.mkWorld (Setup.run_statement create (Setup.relations w))
          Setup.Ended (Setup.connections w) (drop 3 (Setup.faults w))
          (Setup.trace w ++ [Setup.Called Setup.Connect;
                             Setup.Called (Setup.Query create);
                             Setup.Called Setup.End_])))
  ∨ (Setup.answers 2 w ∧ Setup.refuses 2 w
     ∧ Setup.GET w
       = (Setup.Thrown (Setup.ServiceError Setup.End_),
          Setup.mkWorld (Setup.run_statement create (Setup.relations w))
            Setup.Connected (S (Setup.connections w)) (drop 3 (Setup.faults w))
            (Setup.trace w ++ [Setup.Called Setup.Connect;
                               Setup.Called (Setup.Query create);
                               Setup.Called Setup.End_])))
  ∨ (Setup.answers 1 w ∧ Setup.refuses 1 w ∧ ¬ Setup.refuses 2 w
     ∧ Setup.GET w
       = (Setup.Returned Setup.database_error,
          Setup.mkWorld (Setup.relations w) Setup.Ended (Setup.connections w)
            (drop 3 (Setup.faults w))
            (Setup.trace w ++ [Setup.Called Setup.Connect;
                               Setup.Called (Setup.Query create);
                               failure (Setup.Query create);
                               Setup.Called Setup.End_])))
  ∨ (Setup.answers 1 w ∧ Setup.refuses 1 w ∧ Setup.refuses 2 w
     ∧ Setup.GET w
       = (Setup.Thrown (Setup.ServiceError Setup.End_),
          Setup.mkWorld (Setup.relations w) Setup.Connected
            (S (Setup.connections w)) (drop 3 (Setup.faults w))
            (Setup.trace w ++ [Setup.Called Setup.Connect;
                               Setup.Called (Setup.Query create);
                               failure (Setup.Query create);
                               Setup.Called Setup.End_])))
  ∨ (Setup.refuses 0 w ∧ ¬ Setup.refuses 1 w
     ∧ Setup.GET w
       = (Setup.Returned Setup.database_error,
          Setup.mkWorld (Setup.relations w) Setup.Ended (Setup.connections w)
            (drop 2 (Setup.faults w))
            (Setup.trace w ++ [Setup.Called Setup.Connect;
                               failure Setup.Connect;
                               Setup.Called Setup.End_])))
  ∨ (Setup.refuses 0 w ∧ Setup.refuses 1 w
     ∧ Setup.GET w
       = (Setup.Thrown (Setup.ServiceError Setup.End_),
          Setup.mkWorld (Setup.relations w) Setup.Created (Setup.connections w)
            (drop 2 (Setup.faults w))
            (Setup.trace w ++ [Setup.Called Setup.Connect;
                               failure Setup.Connect;
                               Setup.Called Setup.End_]))).
Proof.
  intros create failure. destruct w as [rels cl n F L].
  unfold Setup.answers, Setup.refuses, refusal_free. cbn [Setup.faults].
  destruct F as [|[] [|[] [|[] F]]]; cbn;
    rewrite <- ?app_assoc; cbn;
    first
      [ left; split; [by repeat constructor|done]
      | right; left; split; [by repeat constructor|done]
      | right; right; left; split; [by repeat constructor|done]
      | right; right; right; left; split; [by repeat constructor|done]
      | right; right; right; right; left; split; [done|done]
      | right; right; right; right; right; split; [done|done] ].
Qed.

Lemma setup_served_not_refused n k w :
  Setup.answers n w → Setup.refuses k w → (k < n)%nat → False.
Proof. intros Ha Hr Hk. by destruct (refusal_free_at _ _ _ Ha Hk). Qed.

Ltac setup_events :=
  unfold Setup.issued; cbn [fst snd Setup.trace]; rewrite drop_app_length.

(** X21.  When its three calls are served the handler answers 200 and the [users]
    table exists: created empty with the columns of the statement if there
    was none, and no other relation is touched; the connection it opened is
    closed again. *)
Theorem setup_GET_ensures_table w :
  Setup.answers 3 w →
  let w' := (Setup.GET w).2 in
  (Setup.GET w).1 = Setup.Returned Setup.table_ensured
  ∧ is_Some (Setup.relations w' !! "users")
  ∧ (Setup.relations w !! "users" = None →
       Setup.relations w' !! "users"
       = Some {| Setup.columns := Setup.users_columns; Setup.rows := ∅ |})
  ∧ (∀ other, other ≠ "users" →
       Setup.relations w' !! other = Setup.relations w !! other)
  ∧ Setup.connections w' = Setup.connections w
  ∧ Setup.calls (Setup.issued w w')
    = [Setup.Connect;
       Setup.Query (Setup.CreateTableIfNotExists "users" Setup.users_columns);
       Setup.End_].
Proof.
  intros Ha w'. subst w'.
  destruct (setup_GET_run w)
    as [[_ ->]|[(_ & Hr & _)|[(_ & Hr & _)|[(_ & Hr & _)|[(Hr & _)|(Hr & _)]]]]];
    try (by destruct (setup_served_not_refused _ _ _ Ha Hr); lia).
  cbn [fst snd Setup.relations Setup.connections].
  split; [done|]. split; [apply setup_run_statement_users|].
  split; [|split; [|split; [done|]]].
  - intros Hnone. unfold Setup.run_statement. rewrite Hnone.
    apply lookup_insert_eq.
  - intros other Hne. unfold Setup.run_statement.
    destruct (Setup.relations w !! "users"); [done|].
    by rewrite lookup_insert_ne.
  - by setup_events.
Qed.

(** X22.  The handler never alters a [users] table that exists, whatever its
    columns and rows, and whatever the server refuses. *)
Theorem setup_GET_keeps_existing_table w r :
  Setup.relations w !! "users" = Some r →
  Setup.relations (Setup.GET w).2 = Setup.relations w.
Proof.
  intros Hr.
  destruct (setup_GET_run w)
    as [[_ ->]|[(_ & _ & ->)|[(_ & _ & _ & ->)|[(_ & _ & _ & ->)
       |[(_ & _ & ->)|(_ & _ & ->)]]]]];
    cbn [snd Setup.relations]; try done;
    unfold Setup.run_statement; by rewrite Hr.
Qed.

(** X23.  [client.end()] is the last call of every run, also when the connection
    was refused; and whenever the handler answers, with 200 or with 500, the
    server has as many connections open as before. *)
Theorem setup_GET_closes_connection w :
  let w' := (Setup.GET w).2 in
  head (Setup.calls (Setup.issued w w')) = Some Setup.Connect
  ∧ last (Setup.calls (Setup.issued w w')) = Some Setup.End_
  ∧ (∀ resp,
       (Setup.GET w).1 = Setup.Returned resp →
       Setup.client w' = Setup.Ended
       ∧ Setup.connections w' = Setup.connections w).
Proof.
  intros w'. subst w'.
  destruct (setup_GET_run w)
    as [[_ ->]|[(_ & _ & ->)|[(_ & _ & _ & ->)|[(_ & _ & _ & ->)
       |[(_ & _ & ->)|(_ & _ & ->)]]]]];
    cbn [fst snd]; setup_events;
    (split; [done|]); (split; [done|]); intros resp Hresp;
    first [done | discriminate Hresp].
Qed.

(** X24.  The handler has three outcomes: 200 when all is served; 500 with the
    error logged once and the relations untouched when the connection or
    the statement is refused; and a rejection that escapes it, that of
    [client.end()], which the [finally] clause awaits outside the [try]. *)
Theorem setup_GET_outcomes w :
  let w' := (Setup.GET w).2 in
  ((Setup.GET w).1 = Setup.Returned Setup.table_ensured
   ∧ Setup.answers 3 w
   ∧ Setup.logged (Setup.issued w w') = [])
  ∨ ((Setup.GET w).1 = Setup.Returned Setup.database_error
     ∧ status Setup.database_error = 500%nat
     ∧ Setup.relations w' = Setup.relations w
     ∧ ∃ err, Setup.logged (Setup.issued w w') = [("Database error:", err)])
  ∨ ((Setup.GET w).1 = Setup.Thrown (Setup.ServiceError Setup.End_)
     ∧ last (Setup.calls (Setup.issued w w')) = Some Setup.End_).
Proof.
  intros w'. subst w'.
  destruct (setup_GET_run w)
    as [[Ha ->]|[(_ & _ & ->)|[(_ & _ & _ & ->)|[(_ & _ & _ & ->)
       |[(_ & _ & ->)|(_ & _ & ->)]]]]];
    cbn [fst snd]; setup_events.
  - by left.
  - by right; right.
  - right; left. cbn. eauto 6.
  - by right; right.
  - right; left. cbn. eauto 6.
  - by right; right.
Qed.

(** X25.  A refused [client.end()] after a served statement: the table is there,
    but the handler rejects instead of answering, and the connection stays
    open. *)
Theorem setup_GET_end_rejection_escapes w :
  Setup.answers 2 w →
  Setup.refuses 2 w →
  let w' := (Setup.GET w).2 in
  (Setup.GET w).1 = Setup.Thrown (Setup.ServiceError Setup.End_)
  ∧ is_Some (Setup.relations w' !! "users")
  ∧ Setup.connections w' = S (Setup.connections w).
Proof.
  intros Ha Hr w'. subst w'.
  destruct (setup_GET_run w)
    as [[Ha3 _]|[(_ & _ & ->)|[(_ & Hr1 & _)|[(_ & Hr1 & _)|[(Hr0 & _)|(Hr0 & _)]]]]].
  - destruct (refusal_free_at _ _ 2%nat Ha3 ltac:(lia) Hr).
  - cbn [fst snd Setup.relations Setup.connections].
    split; [done|]. split; [apply setup_run_statement_users|done].
  - destruct (refusal_free_at _ _ 1%nat Ha ltac:(lia) Hr1).
  - destruct (refusal_free_at _ _ 1%nat Ha ltac:(lia) Hr1).
  - destruct (refusal_free_at _ _ 0%nat Ha ltac:(lia) Hr0).
  - destruct (refusal_free_at _ _ 0%nat Ha ltac:(lia) Hr0).
Qed.

(** X26.  The handler is idempotent: a second served run answers as the first and
    leaves the relations as the first left them. *)
Theorem setup_GET_idempotent w :
  Setup.answers 6 w →
  let w1 := (Setup.GET w).2 in
  (Setup.GET w1).1 = (Setup.GET w).1
  ∧ (Setup.GET w).1 = Setup.Returned Setup.table_ensured
  ∧ Setup.relations (Setup.GET w1).2 = Setup.relations w1.
Proof.
  intros Ha w1.
  assert (Setup.answers 3 w) as Ha3 by (by apply (refusal_free_le 6); [lia|]).
  assert (Setup.GET w
          = (Setup.Returned Setup.table_ensured,
             Setup.mkWorld
               (Setup.run_statement
                  (Setup.CreateTableIfNotExists "users" Setup.users_columns)
                  (Setup.relations w))
               Setup.Ended (Setup.connections w) (drop 3 (Setup.faults w))
               (Setup.trace w ++ [Setup.Called Setup.Connect;
                  Setup.Called (Setup.Query
                    (Setup.CreateTableIfNotExists "users" Setup.users_columns));
                  Setup.Called Setup.End_]))) as Hrun.
  { destruct (setup_GET_run w)
      as [[_ ->]|[(_ & Hr & _)|[(_ & Hr & _)|[(_ & Hr & _)|[(Hr & _)|(Hr & _)]]]]];
      [done|..];
      by destruct (setup_served_not_refused _ _ _ Ha3 Hr); lia. }
  assert (Setup.answers 3 w1) as Ha1.
  { subst w1. rewrite Hrun. unfold Setup.answers. cbn [snd Setup.faults].
    by apply (refusal_free_drop 3). }
  destruct (setup_run_statement_users (Setup.relations w)) as [r Hr].
  assert (Setup.relations w1 !! "users" = Some r) as Hr1
    by (subst w1; by rewrite Hrun).
  destruct (setup_GET_run w1)
    as [[_ Hrun1]|[(_ & Hx & _)|[(_ & Hx & _)|[(_ & Hx & _)|[(Hx & _)|(Hx & _)]]]]];
    try (by destruct (setup_served_not_refused _ _ _ Ha1 Hx); lia).
  rewrite Hrun1. cbn [fst snd Setup.relations].
  split; [by rewrite Hrun|]. split; [by rewrite Hrun|].
  unfold Setup.run_statement. by rewrite Hr1.
Qed.


(** ** The route at work *)

#[local] Existing Instance Json.runtime.

Import Sample.

Ltac served_schedule := unfold answers, refusal_free; compute_done.

(** [JSON.stringify([])] *)
Example stringify_empty_array : JSON_stringify (users_json []) = "[]".
Proof. reflexivity. Qed.

Example parse_snapshot :
  JSON_parse (JSON_stringify (users_json [john; jane]))
  = Some (users_json [john; jane]).
Proof. vm_compute. reflexivity. Qed.

(** Scenario A: the cache is empty and the store has John. *)
Example scenario_A :
  (GET seeded).1 = Returned (NextResponse_json (users_json [john]) 200)
  ∧ redis (GET seeded).2 !! "users"
    = Some {| value := JSON_stringify (users_json [john]); ttl := Some 60%nat |}.
Proof. vm_compute. done. Qed.

(** Scenario B: John exists and is written again with other fields. *)
Example scenario_B :
  let run := POST {| payload := Some (One john_updated) |} warm in
  run.1 = Returned (write_succeeded 1)
  ∧ table run.2 !! "1" = Some (row_of john_updated)
  ∧ redis run.2 !! "users" = None.
Proof. vm_compute. done. Qed.

(** Scenario C: two new records, and the second insert is refused. *)
Example scenario_C :
  let run := POST {| payload := Some (Many [john; jane]) |} (refusing 3 blank) in
  run.1 = Returned write_failed
  ∧ table run.2 = ∅
  ∧ sessions run.2 = ∅
  ∧ calls (issued blank run.2)
    = [PoolConnect; ClientQuery 0 Begin; ClientQuery 0 (Upsert john);
       ClientQuery 0 (Upsert jane); ClientQuery 0 Rollback; ClientRelease 0].
Proof. vm_compute. done. Qed.

(** The count is the number of inputs, not of rows. *)
Example duplicates_are_counted :
  let run := POST {| payload := Some (Many [john; john_updated]) |} blank in
  run.1 = Returned (write_succeeded 2)
  ∧ select_users (table run.2) = [john_updated].
Proof. vm_compute. done. Qed.

Lemma GET_cache_hit_witness :
  redis warm !! USERS_CACHE_KEY = Some snapshot
  ∧ JSON_parse (value snapshot) = Some (users_json [john])
  ∧ answers 1 warm
  ∧ (GET warm).1 = Returned (NextResponse_json (users_json [john]) 200)
  ∧ filter store_op (calls (issued warm (GET warm).2)) = [].
Proof.
  assert (redis warm !! USERS_CACHE_KEY = Some snapshot) as Hr
    by (vm_compute; reflexivity).
  assert (JSON_parse (value snapshot) = Some (users_json [john])) as Hp
    by (vm_compute; reflexivity).
  assert (answers 1 warm) as Ha by served_schedule.
  destruct (GET_cache_hit warm snapshot (users_json [john]) Hr Hp)
    as (Hhit & Hstore & _).
  destruct (Hhit Ha) as [Hres _].
  exact (conj Hr (conj Hp (conj Ha (conj Hres Hstore)))).
Defined.

Lemma GET_hit_leaves_cache_witness :
  redis warm !! USERS_CACHE_KEY = Some snapshot
  ∧ value snapshot ≠ ""
  ∧ redis (GET warm).2 = redis warm.
Proof.
  assert (redis warm !! USERS_CACHE_KEY = Some snapshot) as Hr
    by (vm_compute; reflexivity).
  assert (value snapshot ≠ "") as Hne by (vm_compute; discriminate).
  destruct (GET_hit_leaves_cache warm snapshot Hr Hne) as [Hsame _].
  exact (conj Hr (conj Hne Hsame)).
Defined.

Lemma GET_miss_then_populate_witness :
  redis seeded !! USERS_CACHE_KEY = None
  ∧ answers 3 seeded
  ∧ (GET seeded).1 = Returned (NextResponse_json (users_json [john]) 200)
  ∧ redis (elapse 60 (GET seeded).2) !! USERS_CACHE_KEY = None.
Proof.
  assert (redis seeded !! USERS_CACHE_KEY = None) as Hr
    by (vm_compute; reflexivity).
  assert (answers 3 seeded) as Ha by served_schedule.
  destruct (GET_miss_then_populate seeded Hr Ha) as (Hres & _ & _ & Hgone).
  exact (conj Hr (conj Ha (conj Hres Hgone))).
Defined.

Lemma GET_empty_collection_witness :
  table blank = ∅
  ∧ redis blank !! USERS_CACHE_KEY = None
  ∧ answers 3 blank
  ∧ (GET blank).1 = Returned (NextResponse_json (JArr []) 200)
  ∧ redis (GET blank).2 !! USERS_CACHE_KEY
    = Some {| value := "[]"; ttl := Some 60%nat |}.
Proof.
  assert (table blank = ∅) as Ht by reflexivity.
  assert (redis blank !! USERS_CACHE_KEY = None) as Hr
    by (vm_compute; reflexivity).
  assert (answers 3 blank) as Ha by served_schedule.
  destruct (GET_empty_collection blank Ht Hr Ha) as [Hres Hc].
  exact (conj Ht (conj Hr (conj Ha (conj Hres Hc)))).
Defined.

Lemma writeUsers_all_or_nothing_witness :
  [john; jane] !! 1%nat = Some jane
  ∧ answers 3 (refusing 3 seeded)
  ∧ refuses 3 (refusing 3 seeded)
  ∧ table (writeUsers [john; jane] (refusing 3 seeded)).2 = table seeded
  ∧ sessions (writeUsers [john; jane] (refusing 3 seeded)).2 = ∅.
Proof.
  assert ([john; jane] !! 1%nat = Some jane) as Hu by reflexivity.
  assert (answers (1 + 2) (refusing 3 seeded)) as Ha by served_schedule.
  assert (refuses (1 + 2) (refusing 3 seeded)) as Hr by reflexivity.
  destruct (writeUsers_all_or_nothing [john; jane] (refusing 3 seeded))
    as (Hfail & Hrel & _).
  destruct (Hfail 1%nat jane Hu Ha Hr) as (_ & Ht & _).
  exact (conj Hu (conj Ha (conj Hr (conj Ht Hrel)))).
Defined.

Lemma writeUsers_last_occurrence_witness :
  writeUsers [john; jane; john_updated] blank
  = (Returned tt, (writeUsers [john; jane; john_updated] blank).2)
  ∧ table (writeUsers [john; jane; john_updated] blank).2 !! "1"
    = Some (row_of john_updated).
Proof.
  assert (writeUsers [john; jane; john_updated] blank
          = (Returned tt, (writeUsers [john; jane; john_updated] blank).2)) as Hw
    by (vm_compute; reflexivity).
  destruct (writeUsers_last_occurrence _ _ _ Hw "1") as [Hrow _].
  exact (conj Hw Hrow).
Defined.

Lemma POST_reports_failed_invalidation_witness :
  let w1 := (writeUsers [john] (refusing 4 blank)).2 in
  let w2 := (redis_del USERS_CACHE_KEY w1).2 in
  writeUsers (normalize (One john)) (refusing 4 blank) = (Returned tt, w1)
  ∧ redis_del USERS_CACHE_KEY w1
    = (Thrown (ServiceError (RedisDel USERS_CACHE_KEY)), w2)
  ∧ (POST {| payload := Some (One john) |} (refusing 4 blank)).1
    = Returned write_failed.
Proof.
  intros w1 w2.
  assert (writeUsers (normalize (One john)) (refusing 4 blank) = (Returned tt, w1))
    as Hw by (vm_compute; reflexivity).
  assert (redis_del USERS_CACHE_KEY w1
          = (Thrown (ServiceError (RedisDel USERS_CACHE_KEY)), w2))
    as Hd by (vm_compute; reflexivity).
  destruct (POST_reports_failed_invalidation (One john) _ _ _ _ Hw Hd)
    as (Hres & _).
  exact (conj Hw (conj Hd Hres)).
Defined.

Lemma POST_validates_syntax_only_witness :
  answers (length (normalize (Many [])) + 4) blank
  ∧ (POST {| payload := Some (Many []) |} blank).1
    = Returned (write_succeeded 0)
  ∧ head (issued blank (POST {| payload := Some (One nobody) |} blank).2)
    = Some (Called PoolConnect).
Proof.
  assert (answers (length (normalize (Many [])) + 4) blank) as Ha
    by served_schedule.
  destruct (POST_validates_syntax_only blank) as [_ Hparsed].
  destruct (Hparsed (Many [])) as [_ Hok].
  destruct (Hok Ha) as [Hres _].
  destruct (Hparsed (One nobody)) as [Hfirst _].
  exact (conj Ha (conj Hres Hfirst)).
Defined.

Lemma POST_counts_inputs_witness :
  let resp := {| status := 200;
                 body := JObj [("success", JBool true); ("count", JNum 2)] |} in
  (POST {| payload := Some (Many [john; john_updated]) |} seeded).1
  = Returned resp
  ∧ status resp = 200%nat
  ∧ body resp
    = JObj [("success", JBool true);
            ("count",
             JNum (Z.of_nat (length (normalize (Many [john; john_updated])))))]
  ∧ POST {| payload := Some (One john) |} blank
    = POST {| payload := Some (Many [john]) |} blank.
Proof.
  intros resp.
  assert ((POST {| payload := Some (Many [john; john_updated]) |} seeded).1
          = Returned resp) as Hres by (vm_compute; reflexivity).
  assert (status resp = 200%nat) as Hst by reflexivity.
  destruct POST_counts_inputs as (Hsame & Hcount & _).
  destruct (Hcount (Many [john; john_updated]) seeded resp Hres Hst)
    as [_ Hbody].
  pose proof (Hsame john blank) as Heq.
  exact (conj Hres (conj Hst (conj Hbody Heq))).
Defined.

Lemma POST_invalidates_witness :
  let run := POST {| payload := Some (One john_updated) |} warm in
  run.1 = Returned (write_succeeded 1)
  ∧ status (write_succeeded 1) = 200%nat
  ∧ redis run.2 !! USERS_CACHE_KEY = None.
Proof.
  intros run.
  assert (run.1 = Returned (write_succeeded 1)) as Hres
    by (vm_compute; reflexivity).
  assert (status (write_succeeded 1) = 200%nat) as Hst by reflexivity.
  destruct (POST_invalidates _ _ _ Hres Hst) as (Hnone & _).
  exact (conj Hres (conj Hst Hnone)).
Defined.

(** C3, as stated, fails: the transaction of John commits, the deletion of
    the users key is refused, and the write is not reported as a success. *)
Lemma POST_failed_invalidation_counterexample :
  ¬ success_despite_failed_invalidation (One john) (refusing 4 blank).
Proof.
  intros Hclaim.
  set (w1 := (writeUsers [john] (refusing 4 blank)).2).
  set (w2 := (redis_del USERS_CACHE_KEY w1).2).
  assert (writeUsers (normalize (One john)) (refusing 4 blank) = (Returned tt, w1))
    as Hw by (vm_compute; reflexivity).
  assert (redis_del USERS_CACHE_KEY w1
          = (Thrown (ServiceError (RedisDel USERS_CACHE_KEY)), w2))
    as Hd by (vm_compute; reflexivity).
  specialize (Hclaim w1 _ w2 Hw Hd).
  vm_compute in Hclaim. discriminate Hclaim.
Qed.

(** C4, as stated, fails.  An empty array is written with [BEGIN] and
    [COMMIT] and reported as a success with count 0.  A record without
    identifier is upserted like any other: the store is asked, whether it
    then takes the row or, as the third case has it, refuses the insert. *)
Lemma POST_malformed_counterexample :
  (malformed (normalize (Many []))
   ∧ ¬ fails_before_persistence (Many []) blank
   ∧ (POST {| payload := Some (Many []) |} blank).1
     = Returned (write_succeeded 0)
   ∧ calls (issued blank (POST {| payload := Some (Many []) |} blank).2)
     = [PoolConnect; ClientQuery 0 Begin; ClientQuery 0 Commit;
        ClientRelease 0; RedisDel USERS_CACHE_KEY])
  ∧ (malformed (normalize (One nobody))
     ∧ ¬ fails_before_persistence (One nobody) blank
     ∧ ¬ fails_before_persistence (One nobody) (refusing 2 blank)
     ∧ calls (issued (refusing 2 blank)
                (POST {| payload := Some (One nobody) |} (refusing 2 blank)).2)
       = [PoolConnect; ClientQuery 0 Begin; ClientQuery 0 (Upsert nobody);
          ClientQuery 0 Rollback; ClientRelease 0]).
Proof.
  split; [split; [|split; [|split]]|split; [|split; [|split]]].
  - by left.
  - intros [_ Hstore]. vm_compute in Hstore. discriminate Hstore.
  - vm_compute. reflexivity.
  - vm_compute. reflexivity.
  - right. exists nobody. split; [apply list_elem_of_here|done].
  - intros [_ Hstore]. vm_compute in Hstore. discriminate Hstore.
  - intros [_ Hstore]. vm_compute in Hstore. discriminate Hstore.
  - vm_compute. reflexivity.
Qed.

(** ** The further properties at work *)

Import MoreSamples.

Lemma GET_cache_unavailable_witness :
  refuses 0 (refusing 0 warm)
  ∧ (GET (refusing 0 warm)).1 = Returned fetch_failed
  ∧ calls (issued (refusing 0 warm) (GET (refusing 0 warm)).2)
    = [RedisGet USERS_CACHE_KEY].
Proof.
  assert (refuses 0 (refusing 0 warm)) as Hr by reflexivity.
  destruct (GET_cache_unavailable (refusing 0 warm) Hr) as (Hres & Hcalls & _).
  exact (conj Hr (conj Hres Hcalls)).
Defined.

Lemma GET_unparseable_snapshot_witness :
  redis corrupt !! USERS_CACHE_KEY
  = Some {| value := "{oops"; ttl := Some 10%nat |}
  ∧ JSON_parse "{oops" = None
  ∧ answers 2 corrupt
  ∧ (GET corrupt).1 = Returned fetch_failed
  ∧ redis (GET corrupt).2 = redis corrupt.
Proof.
  assert (redis corrupt !! USERS_CACHE_KEY
          = Some {| value := "{oops"; ttl := Some 10%nat |}) as Hr
    by (vm_compute; reflexivity).
  assert ("{oops" ≠ "") as Hne by discriminate.
  assert (JSON_parse "{oops" = None) as Hp by (vm_compute; reflexivity).
  assert (answers 2 corrupt) as Ha by served_schedule.
  destruct (GET_unparseable_snapshot corrupt _ Hr Hne Hp Ha)
    as (Hres & _ & _ & Hsame & _).
  exact (conj Hr (conj Hp (conj Ha (conj Hres Hsame)))).
Defined.

Lemma GET_store_unavailable_witness :
  redis (refusing 1 seeded) !! USERS_CACHE_KEY = None
  ∧ answers 1 (refusing 1 seeded)
  ∧ refuses 1 (refusing 1 seeded)
  ∧ (GET (refusing 1 seeded)).1 = Returned fetch_failed
  ∧ redis (GET (refusing 1 seeded)).2 = redis (refusing 1 seeded).
Proof.
  assert (redis (refusing 1 seeded) !! USERS_CACHE_KEY = None) as Hr
    by (vm_compute; reflexivity).
  assert (answers 1 (refusing 1 seeded)) as Ha by served_schedule.
  assert (refuses 1 (refusing 1 seeded)) as Hf by reflexivity.
  destruct (GET_store_unavailable _ Hr Ha Hf) as (Hres & _ & _ & Hsame).
  exact (conj Hr (conj Ha (conj Hf (conj Hres Hsame)))).
Defined.

Lemma GET_populate_refused_witness :
  redis (refusing 2 seeded) !! USERS_CACHE_KEY = None
  ∧ answers 2 (refusing 2 seeded)
  ∧ refuses 2 (refusing 2 seeded)
  ∧ (GET (refusing 2 seeded)).1 = Returned fetch_failed
  ∧ redis (GET (refusing 2 seeded)).2 !! USERS_CACHE_KEY = None.
Proof.
  assert (redis (refusing 2 seeded) !! USERS_CACHE_KEY = None) as Hr
    by (vm_compute; reflexivity).
  assert (answers 2 (refusing 2 seeded)) as Ha by served_schedule.
  assert (refuses 2 (refusing 2 seeded)) as Hf by reflexivity.
  destruct (GET_populate_refused _ Hr Ha Hf) as (Hres & _ & Hnone).
  exact (conj Hr (conj Ha (conj Hf (conj Hres Hnone)))).
Defined.

Lemma GET_empty_string_is_miss_witness :
  redis emptied !! USERS_CACHE_KEY = Some {| value := ""; ttl := None |}
  ∧ answers 3 emptied
  ∧ (GET emptied).1 = Returned (NextResponse_json (users_json [john]) 200)
  ∧ PoolQuerySelect ∈ calls (issued emptied (GET emptied).2).
Proof.
  assert (redis emptied !! USERS_CACHE_KEY
          = Some {| value := ""; ttl := None |}) as Hr
    by (vm_compute; reflexivity).
  assert (answers 3 emptied) as Ha by served_schedule.
  destruct (GET_empty_string_is_miss emptied _ Hr eq_refl Ha)
    as (Hres & _ & Hsel).
  exact (conj Hr (conj Ha (conj Hres Hsel))).
Defined.

Lemma GET_twice_queries_once_witness :
  redis seeded !! USERS_CACHE_KEY = None
  ∧ answers 4 seeded
  ∧ JSON_parse (JSON_stringify (users_json (select_users (table seeded))))
    = Some (users_json (select_users (table seeded)))
  ∧ (GET (GET seeded).2).1 = (GET seeded).1.
Proof.
  assert (redis seeded !! USERS_CACHE_KEY = None) as Hr
    by (vm_compute; reflexivity).
  assert (answers 4 seeded) as Ha by served_schedule.
  assert (JSON_parse (JSON_stringify (users_json (select_users (table seeded))))
          = Some (users_json (select_users (table seeded)))) as Hp
    by (vm_compute; reflexivity).
  destruct (GET_twice_queries_once seeded Hr Ha Hp) as (Hsame & _).
  exact (conj Hr (conj Ha (conj Hp Hsame))).
Defined.

Lemma writeUsers_commits_in_order_witness :
  answers (length [john; jane] + 3) blank
  ∧ calls (issued blank (writeUsers [john; jane] blank).2)
    = PoolConnect
        :: (ClientQuery (fresh (dom (sessions blank)))
              <$> (Begin :: (Upsert <$> [john; jane]) ++ [Commit]))
        ++ [ClientRelease (fresh (dom (sessions blank)))].
Proof.
  assert (answers (length [john; jane] + 3) blank) as Ha by served_schedule.
  destruct (writeUsers_commits_in_order [john; jane] blank Ha) as [_ Hcalls].
  exact (conj Ha Hcalls).
Defined.

Lemma writeUsers_unwinds_witness :
  (3 < length [john; jane] + 2)%nat
  ∧ answers 4 (refusing 4 seeded)
  ∧ refuses 4 (refusing 4 seeded)
  ∧ table (writeUsers [john; jane] (refusing 4 seeded)).2
    = table (refusing 4 seeded).
Proof.
  assert (3 < length [john; jane] + 2)%nat as Hk by (simpl; lia).
  assert (answers 4 (refusing 4 seeded)) as Ha by served_schedule.
  assert (refuses 4 (refusing 4 seeded)) as Hr by reflexivity.
  destruct (writeUsers_unwinds [john; jane] (refusing 4 seeded) 3 Hk Ha Hr)
    as (_ & _ & Ht & _).
  exact (conj Hk (conj Ha (conj Hr Ht))).
Defined.

Lemma writeUsers_rethrows_witness :
  (Begin :: (Upsert <$> [john; jane]) ++ [Commit]) !! 3%nat = Some Commit
  ∧ answers 4 (refusing 4 seeded)
  ∧ refuses 4 (refusing 4 seeded)
  ∧ ¬ refuses 5 (refusing 4 seeded)
  ∧ (writeUsers [john; jane] (refusing 4 seeded)).1
    = Thrown (ServiceError
                (ClientQuery (fresh (dom (sessions (refusing 4 seeded)))) Commit)).
Proof.
  assert ((Begin :: (Upsert <$> [john; jane]) ++ [Commit]) !! 3%nat
          = Some Commit) as Hs by reflexivity.
  assert (answers 4 (refusing 4 seeded)) as Ha by served_schedule.
  assert (refuses 4 (refusing 4 seeded)) as Hr by reflexivity.
  assert (¬ refuses 5 (refusing 4 seeded)) as Hn by discriminate.
  destruct (writeUsers_rethrows [john; jane] (refusing 4 seeded) 3 Commit Hs Ha Hr)
    as [Hserved _].
  exact (conj Hs (conj Ha (conj Hr (conj Hn (Hserved Hn))))).
Defined.

Lemma writeUsers_without_client_witness :
  refuses 0 (refusing 0 seeded)
  ∧ (writeUsers [john] (refusing 0 seeded)).1 = Thrown (ServiceError PoolConnect)
  ∧ calls (issued (refusing 0 seeded) (writeUsers [john] (refusing 0 seeded)).2)
    = [PoolConnect].
Proof.
  assert (refuses 0 (refusing 0 seeded)) as Hr by reflexivity.
  destruct (writeUsers_without_client [john] (refusing 0 seeded) Hr)
    as (Hres & Hcalls & _).
  exact (conj Hr (conj Hres Hcalls)).
Defined.

Lemma writeUsers_order_independent_witness :
  [john; jane] ≡ₚ [jane; john]
  ∧ NoDup (id <$> [john; jane])
  ∧ table (writeUsers [john; jane] blank).2
    = table (writeUsers [jane; john] blank).2.
Proof.
  assert ([john; jane] ≡ₚ [jane; john]) as Hp by apply perm_swap.
  assert (NoDup (id <$> [john; jane])) as Hnd by compute_done.
  assert (writeUsers [john; jane] blank
          = (Returned tt, (writeUsers [john; jane] blank).2)) as Hw1
    by (vm_compute; reflexivity).
  assert (writeUsers [jane; john] blank
          = (Returned tt, (writeUsers [jane; john] blank).2)) as Hw2
    by (vm_compute; reflexivity).
  exact (conj Hp (conj Hnd
           (writeUsers_order_independent _ _ _ _ _ Hp Hnd Hw1 Hw2))).
Defined.

Lemma writeUsers_idempotent_witness :
  let w1 := (writeUsers [john; jane] blank).2 in
  let w2 := (writeUsers [john; jane] w1).2 in
  writeUsers [john; jane] blank = (Returned tt, w1)
  ∧ writeUsers [john; jane] w1 = (Returned tt, w2)
  ∧ table w2 = table w1.
Proof.
  intros w1 w2.
  assert (writeUsers [john; jane] blank = (Returned tt, w1)) as Hw1
    by (vm_compute; reflexivity).
  assert (writeUsers [john; jane] w1 = (Returned tt, w2)) as Hw2
    by (vm_compute; reflexivity).
  exact (conj Hw1 (conj Hw2 (writeUsers_idempotent _ _ _ _ Hw1 Hw2))).
Defined.

Lemma writeUsers_never_deletes_witness :
  (writeUsers [jane] seeded).1 = Returned tt
  ∧ dom (table (writeUsers [jane] seeded).2)
    = dom (table seeded) ∪ list_to_set (id <$> [jane]).
Proof.
  assert ((writeUsers [jane] seeded).1 = Returned tt) as Hres
    by (vm_compute; reflexivity).
  destruct (writeUsers_never_deletes [jane] seeded) as [_ Hdom].
  exact (conj Hres (Hdom Hres)).
Defined.

Lemma POST_failure_keeps_cache_witness :
  (POST {| payload := Some (Many [john; jane]) |} (refusing 3 warm)).1
  = Returned write_failed
  ∧ redis (POST {| payload := Some (Many [john; jane]) |} (refusing 3 warm)).2
    = redis (refusing 3 warm).
Proof.
  assert ((POST {| payload := Some (Many [john; jane]) |} (refusing 3 warm)).1
          = Returned write_failed) as Hres by (vm_compute; reflexivity).
  destruct (POST_failure_keeps_cache _ _ Hres) as [Hsame _].
  exact (conj Hres Hsame).
Defined.

Lemma POST_success_call_order_witness :
  (POST {| payload := Some (One john) |} blank).1
  = Returned (write_succeeded 1)
  ∧ status (write_succeeded 1) = 200%nat
  ∧ calls (issued blank (POST {| payload := Some (One john) |} blank).2)
    = PoolConnect
        :: (ClientQuery (fresh (dom (sessions blank)))
              <$> (Begin :: (Upsert <$> normalize (One john)) ++ [Commit]))
        ++ [ClientRelease (fresh (dom (sessions blank)));
            RedisDel USERS_CACHE_KEY].
Proof.
  assert ((POST {| payload := Some (One john) |} blank).1
          = Returned (write_succeeded 1)) as Hres by (vm_compute; reflexivity).
  assert (status (write_succeeded 1) = 200%nat) as Hst by reflexivity.
  exact (conj Hres (conj Hst (POST_success_call_order _ _ _ Hres Hst))).
Defined.

Lemma POST_read_your_writes_witness :
  let w' := (POST {| payload := Some (One john_updated) |} warm).2 in
  (POST {| payload := Some (One john_updated) |} warm).1
  = Returned (write_succeeded 1)
  ∧ status (write_succeeded 1) = 200%nat
  ∧ answers 3 w'
  ∧ ∃ rows,
      (GET w').1 = Returned (NextResponse_json (users_json rows) 200)
      ∧ john_updated ∈ rows.
Proof.
  intros w'.
  assert ((POST {| payload := Some (One john_updated) |} warm).1
          = Returned (write_succeeded 1)) as Hres by (vm_compute; reflexivity).
  assert (status (write_succeeded 1) = 200%nat) as Hst by reflexivity.
  assert (answers 3 w') as Ha by served_schedule.
  destruct (POST_read_your_writes _ _ _ Hres Hst Ha)
    as (rows & Hget & _ & _ & Hin & _).
  assert (last_with (id john_updated) (normalize (One john_updated))
          = Some john_updated) as Hlast by reflexivity.
  exact (conj Hres (conj Hst (conj Ha
           (ex_intro _ rows (conj Hget (Hin john_updated Hlast)))))).
Defined.

Lemma POST_failed_invalidation_serves_stale_witness :
  let w := refusing 4 warm in
  let w1 := (writeUsers [john_updated] w).2 in
  let w2 := (redis_del USERS_CACHE_KEY w1).2 in
  let w' := (POST {| payload := Some (One john_updated) |} w).2 in
  redis w !! USERS_CACHE_KEY = Some snapshot
  ∧ JSON_parse (value snapshot) = Some (users_json [john])
  ∧ writeUsers (normalize (One john_updated)) w = (Returned tt, w1)
  ∧ redis_del USERS_CACHE_KEY w1
    = (Thrown (ServiceError (RedisDel USERS_CACHE_KEY)), w2)
  ∧ answers 1 w'
  ∧ (GET w').1 = Returned (NextResponse_json (users_json [john]) 200).
Proof.
  intros w w1 w2 w'.
  assert (redis w !! USERS_CACHE_KEY = Some snapshot) as Hr
    by (vm_compute; reflexivity).
  assert (JSON_parse (value snapshot) = Some (users_json [john])) as Hp
    by (vm_compute; reflexivity).
  assert (writeUsers (normalize (One john_updated)) w = (Returned tt, w1)) as Hw
    by (vm_compute; reflexivity).
  assert (redis_del USERS_CACHE_KEY w1
          = (Thrown (ServiceError (RedisDel USERS_CACHE_KEY)), w2)) as Hd
    by (vm_compute; reflexivity).
  assert (answers 1 w') as Ha by served_schedule.
  destruct (POST_failed_invalidation_serves_stale _ _ _ _ _ _ _ Hr Hp Hw Hd Ha)
    as (_ & Hget & _).
  exact (conj Hr (conj Hp (conj Hw (conj Hd (conj Ha Hget))))).
Defined.

Lemma setup_GET_ensures_table_witness :
  Setup.answers 3 Setup.blank
  ∧ (Setup.GET Setup.blank).1 = Setup.Returned Setup.table_ensured
  ∧ Setup.relations (Setup.GET Setup.blank).2 !! "users"
    = Some {| Setup.columns := Setup.users_columns; Setup.rows := ∅ |}.
Proof.
  assert (Setup.answers 3 Setup.blank) as Ha
    by (unfold Setup.answers, refusal_free; compute_done).
  destruct (setup_GET_ensures_table Setup.blank Ha) as (Hres & _ & Hnew & _).
  assert (Setup.relations Setup.blank !! "users" = None) as Hnone
    by (vm_compute; reflexivity).
  exact (conj Ha (conj Hres (Hnew Hnone))).
Defined.

Lemma setup_GET_keeps_existing_table_witness :
  is_Some (Setup.relations Setup.legacy !! "users")
  ∧ Setup.relations (Setup.GET Setup.legacy).2 = Setup.relations Setup.legacy.
Proof.
  assert (Setup.relations Setup.legacy !! "users"
          = Some {| Setup.columns :=
                      [ Setup.mkColumn "id" (Setup.VARCHAR 255) [Setup.PrimaryKey];
                        Setup.mkColumn "name" Setup.TEXT [Setup.NotNull];
                        Setup.mkColumn "email" Setup.TEXT
                          [Setup.Unique; Setup.NotNull];
                        Setup.mkColumn "age" Setup.INTEGER [Setup.NotNull] ];
                    Setup.rows := {[ "1" := mkRow "John" "john@x.com" 30 ]} |})
    as Hr by (vm_compute; reflexivity).
  exact (conj (ex_intro _ _ Hr)
           (setup_GET_keeps_existing_table Setup.legacy _ Hr)).
Defined.

Lemma setup_GET_closes_connection_witness :
  (Setup.GET (Setup.refusing 0 Setup.blank)).1
  = Setup.Returned Setup.database_error
  ∧ last (Setup.calls
            (Setup.issued (Setup.refusing 0 Setup.blank)
               (Setup.GET (Setup.refusing 0 Setup.blank)).2))
    = Some Setup.End_
  ∧ Setup.connections (Setup.GET (Setup.refusing 0 Setup.blank)).2
    = Setup.connections (Setup.refusing 0 Setup.blank).
Proof.
  assert ((Setup.GET (Setup.refusing 0 Setup.blank)).1
          = Setup.Returned Setup.database_error) as Hres
    by (vm_compute; reflexivity).
  destruct (setup_GET_closes_connection (Setup.refusing 0 Setup.blank))
    as (_ & Hlast & Hclosed).
  destruct (Hclosed _ Hres) as [_ Hconn].
  exact (conj Hres (conj Hlast Hconn)).
Defined.

Lemma setup_GET_end_rejection_escapes_witness :
  Setup.answers 2 (Setup.refusing 2 Setup.blank)
  ∧ Setup.refuses 2 (Setup.refusing 2 Setup.blank)
  ∧ (Setup.GET (Setup.refusing 2 Setup.blank)).1
    = Setup.Thrown (Setup.ServiceError Setup.End_).
Proof.
  assert (Setup.answers 2 (Setup.refusing 2 Setup.blank)) as Ha
    by (unfold Setup.answers, refusal_free; compute_done).
  assert (Setup.refuses 2 (Setup.refusing 2 Setup.blank)) as Hr by reflexivity.
  destruct (setup_GET_end_rejection_escapes _ Ha Hr) as (Hres & _).
  exact (conj Ha (conj Hr Hres)).
Defined.

Lemma setup_GET_idempotent_witness :
  Setup.answers 6 Setup.blank
  ∧ (Setup.GET (Setup.GET Setup.blank).2).1 = (Setup.GET Setup.blank).1
  ∧ Setup.relations (Setup.GET (Setup.GET Setup.blank).2).2
    = Setup.relations (Setup.GET Setup.blank).2.
Proof.
  assert (Setup.answers 6 Setup.blank) as Ha
    by (unfold Setup.answers, refusal_free; compute_done).
  destruct (setup_GET_idempotent Setup.blank Ha) as (Hsame & _ & Hrel).
  exact (conj Ha (conj Hsame Hrel)).
Defined.
